(** * SooperLooper engine: the real-time event dispatch and the instance registry

    A shallow embedding of [src/src/engine.cpp] (class [Engine]) and the
    properties its specification states about it.

    The engine owns two ring buffers (real-time events, administrative
    events), an event generator that stamps events, a control front end
    (OSC) and the registry of [Looper] instances.  The collaborators whose
    code lives in other headers are taken through an interface
    ([Externals]); the ring buffer and the event record are modelled from
    the specification. *)

From Stdlib Require Import ZArith List Lia SpecFloat String Sorted.
From stdpp Require Import base tactics numbers option list.

Set Default Proof Using "Type".

(** ** Machine integers *)

Module Int.

(** Conversion to [unsigned int] / [uint32_t]. *)
Definition to_uint32 (z : Z) : Z := (z mod 2 ^ 32)%Z.

(** Conversion to [int] (two's complement, 32 bits). *)
Definition to_int32 (z : Z) : Z := ((z + 2 ^ 31) mod 2 ^ 32 - 2 ^ 31)%Z.

(** Conversion to [size_t] (64 bits). *)
Definition to_size_t (z : Z) : Z := (z mod 2 ^ 64)%Z.

Definition INT_MAX : Z := (2 ^ 31 - 1)%Z.

End Int.

(** [nframes_t] is declared outside this file.
    Modelled from the spec: the frame count and the fragment offset are
    unsigned frame numbers; they are taken as 32-bit unsigned integers. *)
Abbreviation nframes_t := Z (only parsing).
Definition to_nframes (z : Z) : nframes_t := Int.to_uint32 z.

(** ** Pointers owned by the engine *)

(** A pointer member is null, points to a live object, or holds an address
    at which there is no live object (the object was deleted, or the member
    was never initialised). *)
Inductive ptr (A : Type) : Type :=
| null : ptr A
| live (a : A) : ptr A
| dangling : ptr A.
Arguments null {A}.
Arguments live {A} a.
Arguments dangling {A}.

(** [if (p)]: the test only looks at the address. *)
Definition is_set {A} (p : ptr A) : bool :=
  match p with null => false | _ => true end.

(** [p->...]: defined only on a live object. *)
Definition deref {A} (p : ptr A) : option A :=
  match p with live a => Some a | _ => None end.

(** [delete p]: a no-op on null, destroys a live object, and is undefined
    (here: no result) on an object already deleted.  The pointer variable
    keeps its address, so after the call it dangles. *)
Definition delete_ptr {A} (p : ptr A) : option (ptr A) :=
  match p with
  | null => Some null
  | live _ => Some dangling
  | dangling => None
  end.

(** ** Real-time events *)

(** Modelled from the spec: the event record ([event.hpp]) is not in this
    file.  The spec lists kind, command or control id, value, target
    instance and fragment offset; the field names are those the engine
    reads and writes.  [Instance] is a signed index, -1 meaning all
    instances; [FragmentPos] is what [FragmentPos()] returns. *)
Record Event : Type := mkEvent {
  Type_ : Z;
  Command : Z;
  Control : Z;
  Value : spec_float;
  Instance_ : Z;
  FragmentPos : Z
}.

Definition set_Type (t : Z) (e : Event) : Event :=
  mkEvent t (Command e) (Control e) (Value e) (Instance_ e) (FragmentPos e).
Definition set_Command (c : Z) (e : Event) : Event :=
  mkEvent (Type_ e) c (Control e) (Value e) (Instance_ e) (FragmentPos e).
Definition set_Control (c : Z) (e : Event) : Event :=
  mkEvent (Type_ e) (Command e) c (Value e) (Instance_ e) (FragmentPos e).
Definition set_Value (v : spec_float) (e : Event) : Event :=
  mkEvent (Type_ e) (Command e) (Control e) v (Instance_ e) (FragmentPos e).
Definition set_Instance (i : Z) (e : Event) : Event :=
  mkEvent (Type_ e) (Command e) (Control e) (Value e) i (FragmentPos e).

(** The slots of a freshly allocated queue; they are never read before
    being written. *)
Definition Event_default : Event := mkEvent 0 0 0 (S754_zero false) 0 0.

(** ** The bounded queue *)

Module RingBuffer.
Section RB.
Context {T : Type}.

(** Modelled from the spec: the ring buffer class ([ringbuffer.hpp]) is
    not in this file.  The spec gives a fixed capacity, a write cursor
    and a read cursor that only advance and address the slots modulo the
    capacity, and read and write regions of at most two contiguous
    spans, the write region's combined length being the free capacity. *)
Record t : Type := mk {
  slots : list T;
  write_ptr : nat;
  read_ptr : nat
}.

Definition size (q : t) : nat := length (slots q).

(** [rw_vector]: two spans, each a start position in the slot array and
    a length. *)
Record rw_vector : Type := mk_vec {
  buf0 : nat; len0 : nat;
  buf1 : nat; len1 : nat
}.

(** [vec.buf[i]] and [vec.len[i]]. *)
Definition buf (v : rw_vector) (i : nat) : nat :=
  match i with O => buf0 v | _ => buf1 v end.
Definition len (v : rw_vector) (i : nat) : nat :=
  match i with O => len0 v | _ => len1 v end.

(** The number of unread elements, and the free capacity. *)
Definition read_space (q : t) : nat := write_ptr q - read_ptr q.
Definition write_space (q : t) : nat := size q - read_space q.

(** The region starting at cursor [c] with [cnt] elements, cut where the
    slot array ends. *)
Definition region (q : t) (c cnt : nat) : rw_vector :=
  let start := c mod size q in
  if size q <? start + cnt
  then mk_vec start (size q - start) 0 (start + cnt - size q)
  else mk_vec start cnt 0 0.

Definition get_read_vector (q : t) : rw_vector :=
  region q (read_ptr q) (read_space q).

Definition get_write_vector (q : t) : rw_vector :=
  region q (write_ptr q) (write_space q).

Definition increment_read_ptr (n : nat) (q : t) : t :=
  mk (slots q) (write_ptr q) (read_ptr q + n).

Definition increment_write_ptr (n : nat) (q : t) : t :=
  mk (slots q) (write_ptr q + n) (read_ptr q).

(** Assignment through a pointer into the slot array. *)
Definition store (i : nat) (x : T) (q : t) : t :=
  mk (<[i := x]> (slots q)) (write_ptr q) (read_ptr q).

(** The elements of a span. *)
Definition span (q : t) (start cnt : nat) : list T :=
  take cnt (drop start (slots q)).

(** The unread elements, first span then second. *)
Definition pending (q : t) : list T :=
  let v := get_read_vector q in
  span q (buf0 v) (len0 v) ++ span q (buf1 v) (len1 v).

(** Modelled from the spec: the single-element convenience forms used
    by the administrative path, [write(&x, 1)] and [read(&x, 1)].  The
    engine compares the result of [read] with 1, so both return the
    number of elements transferred, which is 0 when there is no room,
    or nothing to read. *)
Definition write1 (x : T) (q : t) : t * nat :=
  let v := get_write_vector q in
  if len v 0 =? 0 then (q, 0)
  else (increment_write_ptr 1 (store (buf v 0) x q), 1).

Definition read1 (q : t) : option T * t * nat :=
  let v := get_read_vector q in
  if len v 0 =? 0 then (None, q, 0)
  else (slots q !! buf v 0, increment_read_ptr 1 q, 1).

(** The state of a queue that was built by the constructor and used
    through the operations above. *)
Record wf (q : t) : Prop := mk_wf {
  wf_size : 0 < size q;
  wf_order : read_ptr q <= write_ptr q;
  wf_bound : write_ptr q <= read_ptr q + size q
}.

End RB.
Arguments t : clear implicits.

(** [new RingBuffer<T> (sz)] *)
Definition new {T} (dflt : T) (sz : nat) : t T := mk (replicate sz dflt) 0 0.

End RingBuffer.

(** [nframes_t] arithmetic wraps around. *)
Definition nframes_add (a b : nframes_t) : nframes_t := to_nframes (a + b).
Definition nframes_sub (a b : nframes_t) : nframes_t := to_nframes (a - b).

(** ** Collaborators *)

(** The calls the engine makes on the control front end
    ([control_osc.hpp]). *)
Inductive OscCall (UpdatePayload RegisterPayload : Type) : Type :=
| finish_get_event (control instance : Z) (ret_value : spec_float)
| finish_update_event (cu : UpdatePayload)
| send_pingack (ret_url ret_path : string)
| finish_register_event (rc : RegisterPayload).
Arguments finish_get_event {_ _}.
Arguments finish_update_event {_ _}.
Arguments send_pingack {_ _}.
Arguments finish_register_event {_ _}.

(** The classes the engine uses and whose code is elsewhere: the audio
    driver, the event generator, the control front end and the looper.
    Methods that may change their object return the new object. *)
Class Externals : Type := {
  AudioDriver : Type;
  EventGenerator : Type;
  ControlOSC : Type;
  Looper : Type;
  ConfigUpdate : Type;
  RegisterConfig : Type;
  (* AudioDriver *)
  driver_set_engine : AudioDriver -> AudioDriver;
  driver_initialize : AudioDriver -> bool * AudioDriver;
  driver_get_samplerate : AudioDriver -> Z;
  (* EventGenerator *)
  new_EventGenerator : Z -> EventGenerator;
  createEvent : EventGenerator -> Event * EventGenerator;
  updateFragmentTime : nframes_t -> EventGenerator -> EventGenerator;
  (* ControlOSC *)
  new_ControlOSC : Z -> ControlOSC;
  osc_is_ok : ControlOSC -> bool;
  osc_call : OscCall ConfigUpdate RegisterConfig -> ControlOSC -> ControlOSC;
  (* Looper: constructor, operator(), run, do_event, get_control_value *)
  new_Looper : ptr AudioDriver -> Z -> Z -> Looper;
  looper_ok : Looper -> bool * Looper;
  looper_run : nframes_t -> nframes_t -> Looper -> Looper;
  looper_do_event : Event -> Looper -> Looper;
  looper_get_control_value : Z -> Looper -> spec_float
}.

Definition MAX_EVENTS : nat := 1024.

Section Engine.
Context {X : Externals}.

(** *** Administrative events *)

Inductive ConfigLoopType : Type := Add | Remove.

(** The family of [EventNonRT] subclasses that [mainloop] tells apart by
    [dynamic_cast], in the order it tries them. *)
Inductive EventNonRT : Type :=
| GetParamEvent (control instance : Z) (ret_value : spec_float)
| ConfigUpdateEvent (cu : ConfigUpdate)
| ConfigLoopEvent (type : ConfigLoopType) (channels : Z) (index : Z)
| PingEvent (ret_url ret_path : string)
| RegisterConfigEvent (rc : RegisterConfig).

(** The signals the engine emits. *)
Inductive Signal : Type :=
| LoopAdded (n : Z)
| LoopRemoved.

(** *** Engine state *)

Record Engine : Type := mkEngine {
  _ok : bool;
  _driver : ptr AudioDriver;
  _osc : ptr ControlOSC;
  _event_generator : ptr EventGenerator;
  _event_queue : ptr (RingBuffer.t Event);
  _nonrt_event_queue : ptr (RingBuffer.t EventNonRT);
  _instances : list Looper;
  _def_channel_cnt : Z;
  _def_loop_secs : Z;
  (** [_instance_lock] is held by another thread. *)
  _instance_lock : bool;
  (** The number of times [_event_cond] was signalled. *)
  _event_cond : nat;
  (** The signals emitted so far, oldest first. *)
  emitted : list Signal
}.

Definition set_ok (b : bool) (e : Engine) : Engine :=
  mkEngine b (_driver e) (_osc e) (_event_generator e) (_event_queue e)
    (_nonrt_event_queue e) (_instances e) (_def_channel_cnt e)
    (_def_loop_secs e) (_instance_lock e) (_event_cond e) (emitted e).
Definition set_driver (d : ptr AudioDriver) (e : Engine) : Engine :=
  mkEngine (_ok e) d (_osc e) (_event_generator e) (_event_queue e)
    (_nonrt_event_queue e) (_instances e) (_def_channel_cnt e)
    (_def_loop_secs e) (_instance_lock e) (_event_cond e) (emitted e).
Definition set_osc (o : ptr ControlOSC) (e : Engine) : Engine :=
  mkEngine (_ok e) (_driver e) o (_event_generator e) (_event_queue e)
    (_nonrt_event_queue e) (_instances e) (_def_channel_cnt e)
    (_def_loop_secs e) (_instance_lock e) (_event_cond e) (emitted e).
Definition set_event_generator (g : ptr EventGenerator) (e : Engine) : Engine :=
  mkEngine (_ok e) (_driver e) (_osc e) g (_event_queue e)
    (_nonrt_event_queue e) (_instances e) (_def_channel_cnt e)
    (_def_loop_secs e) (_instance_lock e) (_event_cond e) (emitted e).
Definition set_event_queue (q : ptr (RingBuffer.t Event)) (e : Engine) : Engine :=
  mkEngine (_ok e) (_driver e) (_osc e) (_event_generator e) q
    (_nonrt_event_queue e) (_instances e) (_def_channel_cnt e)
    (_def_loop_secs e) (_instance_lock e) (_event_cond e) (emitted e).
Definition set_nonrt_event_queue (q : ptr (RingBuffer.t EventNonRT)) (e : Engine)
  : Engine :=
  mkEngine (_ok e) (_driver e) (_osc e) (_event_generator e) (_event_queue e)
    q (_instances e) (_def_channel_cnt e)
    (_def_loop_secs e) (_instance_lock e) (_event_cond e) (emitted e).
Definition set_instances (l : list Looper) (e : Engine) : Engine :=
  mkEngine (_ok e) (_driver e) (_osc e) (_event_generator e) (_event_queue e)
    (_nonrt_event_queue e) l (_def_channel_cnt e)
    (_def_loop_secs e) (_instance_lock e) (_event_cond e) (emitted e).
Definition signal_event_cond (e : Engine) : Engine :=
  mkEngine (_ok e) (_driver e) (_osc e) (_event_generator e) (_event_queue e)
    (_nonrt_event_queue e) (_instances e) (_def_channel_cnt e)
    (_def_loop_secs e) (_instance_lock e) (S (_event_cond e)) (emitted e).
Definition emit (s : Signal) (e : Engine) : Engine :=
  mkEngine (_ok e) (_driver e) (_osc e) (_event_generator e) (_event_queue e)
    (_nonrt_event_queue e) (_instances e) (_def_channel_cnt e)
    (_def_loop_secs e) (_instance_lock e) (_event_cond e) (emitted e ++ [s]).

(** [_instances.size()] *)
Definition instances_size (e : Engine) : Z := Z.of_nat (length (_instances e)).

(** *** Construction and life cycle *)

(** [Engine::Engine].  [_nonrt_event_queue] is not initialised by the
    constructor. *)
Definition Engine_new : Engine :=
  mkEngine false null null null null dangling [] 2 200 false 0 [].

(** [Engine::initialize]; [pingurl] is not used. *)
Definition initialize (driver : AudioDriver) (port : Z) (pingurl : string)
    (e : Engine) : bool * Engine :=
  let driver := driver_set_engine driver in
  let '(connected, driver) := driver_initialize driver in
  let e := set_driver (live driver) e in
  if negb connected then (false, e)
  else
    let e := set_event_generator
               (live (new_EventGenerator (driver_get_samplerate driver))) e in
    let e := set_event_queue (live (RingBuffer.new Event_default MAX_EVENTS)) e in
    (* the slots of the administrative queue hold pointers; the filler
       stands for their unspecified initial value *)
    let e := set_nonrt_event_queue
               (live (RingBuffer.new (PingEvent "" "") MAX_EVENTS)) e in
    let osc := new_ControlOSC port in
    let e := set_osc (live osc) e in
    if negb (osc_is_ok osc) then (false, e)
    else (true, set_ok true e).

(** [Engine::cleanup].  No result stands for undefined behaviour. *)
Definition cleanup (e : Engine) : option Engine :=
  e ← (if is_set (_osc e)
       then osc ← delete_ptr (_osc e); Some (set_osc osc e)
       else Some e);
  e ← (if is_set (_event_queue e)
       then _ ← delete_ptr (_event_queue e); Some (set_event_queue null e)
       else Some e);
  e ← (if is_set (_event_generator e)
       then _ ← delete_ptr (_event_generator e);
            Some (set_event_generator null e)
       else Some e);
  Some (set_ok false e).

(** [Engine::quit] *)
Definition quit (e : Engine) : Engine :=
  signal_event_cond (set_ok false e).

(** *** The instance registry *)

(** [Engine::add_loop].  The blocking [LockMonitor] is not modelled: the
    call is taken at a moment when it holds the lock. *)
Definition add_loop (chans : Z) (e : Engine) : bool * Engine :=
  let instance :=
    new_Looper (_driver e) (Int.to_uint32 (instances_size e)) chans in
  let n := Int.to_int32 (instances_size e) in
  let '(ok, instance) := looper_ok instance in
  if negb ok then
    (* delete instance *)
    (false, e)
  else
    let e := set_instances (_instances e ++ [instance]) e in
    let e := emit (LoopAdded n) e in
    (true, e).

(** [Engine::remove_loop]; [index] is an [unsigned int]. *)
Definition remove_loop (index : Z) (e : Engine) : bool * Engine :=
  if (index <? instances_size e)%Z then
    (* erase the position, delete the looper *)
    let e := set_instances (delete (Z.to_nat index) (_instances e)) e in
    let e := emit LoopRemoved e in
    (true, e)
  else (false, e).

(** *** The real-time callback *)

(** The loop over the instances for one event (the [for] loop inside the
    event loop): each instance runs up to the event, then takes the event
    if it is addressed to it.  [m] is the position of the first instance
    of [insts]; it is an [int], which a registry of fewer than 2^31
    instances does not overflow. *)
Fixpoint dispatch_instances (evt : Event) (usedframes doframes : nframes_t)
    (m : Z) (insts : list Looper) : list Looper :=
  match insts with
  | [] => []
  | i :: rest =>
      let i := looper_run usedframes doframes i in
      let i := if (Instance_ evt =? -1)%Z || (Instance_ evt =? m)%Z
               then looper_do_event evt i else i in
      i :: dispatch_instances evt usedframes doframes (m + 1)%Z rest
  end.

(** What the event loop does with one event once its cursor has moved
    on: the check of the fragment position, and the dispatch. *)
Definition dispatch_event (nframes : nframes_t) (evt : Event)
    (fragpos : nframes_t) (st : nframes_t * list Looper)
  : nframes_t * list Looper :=
  let '(usedframes, insts) := st in
  if (fragpos <? usedframes)%Z || (nframes <=? fragpos)%Z then
    (* bad fragment pos: continue *)
    (usedframes, insts)
  else
    let doframes := nframes_sub fragpos usedframes in
    let insts := dispatch_instances evt usedframes doframes 0 insts in
    (nframes_add usedframes doframes, insts).

(** The events of a list dispatched one after the other. *)
Definition dispatch_all (nframes : nframes_t) (evs : list Event)
    (st : nframes_t * list Looper) : nframes_t * list Looper :=
  foldl (fun st evt =>
           dispatch_event nframes evt (to_nframes (FragmentPos evt)) st)
        st evs.

(** The instances after the events of a list have been dispatched from
    the start of the buffer and the rest of the buffer has been run. *)
Definition rendered (nframes : nframes_t) (evs : list Event)
    (insts : list Looper) : list Looper :=
  let '(usedframes, insts) := dispatch_all nframes evs (0%Z, insts) in
  looper_run usedframes (nframes_sub nframes usedframes) <$> insts.

(** The [while (n < num)] loop.  [fuel] bounds the number of tests of the
    loop condition; no result stands for running out of it, or for
    reading past the slot array. *)
Fixpoint event_loop (fuel : nat) (nframes : nframes_t)
    (q : RingBuffer.t Event) (vec : RingBuffer.rw_vector)
    (n num vecn : nat) (st : nframes_t * list Looper)
  : option (nframes_t * list Looper) :=
  match fuel with
  | O => None
  | S fuel =>
      if n <? num then
        evt ← RingBuffer.slots q !! (RingBuffer.buf vec vecn + n);
        let fragpos := to_nframes (FragmentPos evt) in
        let n := n + 1 in
        let '(vecn, n, num) :=
          if (n =? num) && (vecn =? 0)
          then (vecn + 1, 0, RingBuffer.len vec 1)
          else (vecn, n, num) in
        event_loop fuel nframes q vec n num vecn
          (dispatch_event nframes evt fragpos st)
      else Some st
  end.

(** [Engine::process]; it always returns 0, which is left out. *)
Definition process (nframes : nframes_t) (e : Engine) : option Engine :=
  (* TentativeLockMonitor lm (_instance_lock) *)
  let locked := negb (_instance_lock e) in
  q ← deref (_event_queue e);
  let vec := RingBuffer.get_read_vector q in
  g ← deref (_event_generator e);
  let e := set_event_generator (live (updateFragmentTime nframes g)) e in
  if negb locked then
    (* already locked *)
    Some e
  else
    let usedframes : nframes_t := 0%Z in
    let num := RingBuffer.len vec 0 in
    if 0 <? num then
      '(usedframes, insts) ←
        event_loop (S (RingBuffer.len vec 0 + RingBuffer.len vec 1))
          nframes q vec 0 num 0 (usedframes, _instances e);
      let q := RingBuffer.increment_read_ptr
                 (RingBuffer.len vec 0 + RingBuffer.len vec 1) q in
      let e := set_event_queue (live q) e in
      let insts :=
        looper_run usedframes (nframes_sub nframes usedframes) <$> insts in
      Some (set_instances insts e)
    else
      Some (set_instances (looper_run 0%Z nframes <$> _instances e) e).

(** *** Pushing events *)

(** [Engine::push_command_event] *)
Definition push_command_event (type cmd : Z) (instance : Z) (e : Engine)
  : option (bool * Engine) :=
  q ← deref (_event_queue e);
  let vec := RingBuffer.get_write_vector q in
  if RingBuffer.len vec 0 =? 0 then Some (false, e)
  else
    g ← deref (_event_generator e);
    let '(evt, g) := createEvent g in
    let evt := set_Type type evt in
    let evt := set_Command cmd evt in
    let evt := set_Instance instance evt in
    (* evt points to the slot vec.buf[0] *)
    let q := RingBuffer.store (RingBuffer.buf vec 0) evt q in
    let q := RingBuffer.increment_write_ptr 1 q in
    Some (true, set_event_queue (live q) (set_event_generator (live g) e)).

(** [Engine::push_control_event] *)
Definition push_control_event (type ctrl : Z) (val : spec_float)
    (instance : Z) (e : Engine) : option (bool * Engine) :=
  q ← deref (_event_queue e);
  let vec := RingBuffer.get_write_vector q in
  if RingBuffer.len vec 0 =? 0 then Some (false, e)
  else
    g ← deref (_event_generator e);
    let '(evt, g) := createEvent g in
    let evt := set_Type type evt in
    let evt := set_Control ctrl evt in
    let evt := set_Value val evt in
    let evt := set_Instance instance evt in
    let q := RingBuffer.store (RingBuffer.buf vec 0) evt q in
    let q := RingBuffer.increment_write_ptr 1 q in
    Some (true, set_event_queue (live q) (set_event_generator (live g) e)).

(** The event [push_command_event] and [push_control_event] put into the
    queue: the stamped event with the caller's fields written over it. *)
Definition command_event (g : EventGenerator) (type cmd instance : Z) : Event :=
  set_Instance instance (set_Command cmd (set_Type type (createEvent g).1)).

Definition control_event (g : EventGenerator) (type ctrl : Z)
    (val : spec_float) (instance : Z) : Event :=
  set_Instance instance
    (set_Value val (set_Control ctrl (set_Type type (createEvent g).1))).

(** [Engine::get_control_value]; [instance] is an [int8_t].  No result
    stands for an access outside the registry. *)
Definition get_control_value (ctrl : Z) (instance : Z) (e : Engine)
  : option spec_float :=
  if (0 <=? instance)%Z && (instance <? Int.to_int32 (instances_size e))%Z
  then
    l ← _instances e !! Z.to_nat instance;
    Some (looper_get_control_value ctrl l)
  else Some (S754_zero false).

(** [Engine::push_nonrt_event]: the result of [write] is not looked at. *)
Definition push_nonrt_event (event : EventNonRT) (e : Engine)
  : option (bool * Engine) :=
  q ← deref (_nonrt_event_queue e);
  let '(q, _) := RingBuffer.write1 event q in
  let e := set_nonrt_event_queue (live q) e in
  let e := signal_event_cond e in
  Some (true, e).

(** *** The worker *)

(** The body of the inner loop of [Engine::mainloop]: the reaction to one
    administrative event. *)
Definition handle_nonrt_event (event : EventNonRT) (e : Engine)
  : option Engine :=
  match event with
  | GetParamEvent control instance _ =>
      ret_value ← get_control_value control instance e;
      osc ← deref (_osc e);
      Some (set_osc
              (live (osc_call (finish_get_event control instance ret_value) osc))
              e)
  | ConfigUpdateEvent cu =>
      osc ← deref (_osc e);
      Some (set_osc (live (osc_call (finish_update_event cu) osc)) e)
  | ConfigLoopEvent Add channels _ =>
      let channels :=
        if (channels =? 0)%Z then _def_channel_cnt e else channels in
      Some (add_loop (Int.to_uint32 channels) e).2
  | ConfigLoopEvent Remove _ index =>
      let index :=
        if (index =? -1)%Z
        then Int.to_int32 (Int.to_size_t (instances_size e - 1))
        else index in
      Some (remove_loop (Int.to_uint32 index) e).2
  | PingEvent ret_url ret_path =>
      osc ← deref (_osc e);
      Some (set_osc (live (osc_call (send_pingack ret_url ret_path) osc)) e)
  | RegisterConfigEvent rc =>
      osc ← deref (_osc e);
      Some (set_osc (live (osc_call (finish_register_event rc) osc)) e)
  end.

(** The inner loop of [Engine::mainloop], which pulls the events off the
    administrative queue while the engine is ok. *)
Fixpoint drain_nonrt_events (fuel : nat) (e : Engine) : option Engine :=
  match fuel with
  | O => None
  | S fuel =>
      if _ok e then
        q ← deref (_nonrt_event_queue e);
        let '(event, q, cnt) := RingBuffer.read1 q in
        let e' := set_nonrt_event_queue (live q) e in
        if cnt =? 1 then
          event ← event;
          e' ← handle_nonrt_event event e';
          (* delete event *)
          drain_nonrt_events fuel e'
        else Some e'
      else Some e
  end.

End Engine.

(** ** A recording implementation of the collaborators

    The loopers of this implementation keep the list of the calls they
    receive, so that what the engine does to an instance can be read off
    the instance. *)

Module Recording.

Inductive Call : Type :=
| Run (start count : nframes_t)
| DoEvent (evt : Event).

Record looper : Type := mk_looper {
  index : Z;
  chans : Z;
  log : list Call
}.

Record generator : Type := mk_generator {
  samplerate : Z;
  stamp : Z;
  fragments : list nframes_t
}.

Record osc : Type := mk_osc {
  port : Z;
  calls : list (OscCall unit unit)
}.

Definition record_call (c : Call) (l : looper) : looper :=
  mk_looper (index l) (chans l) (log l ++ [c]).

(** The driver is a pair: whether it connects, and its sample rate.
    The generator stamps events 16 frames apart.  A looper with more than
    8 channels fails to set up.  The front end is ok on a positive
    port. *)
Definition externals : Externals := {|
  AudioDriver := bool * Z;
  EventGenerator := generator;
  ControlOSC := osc;
  Looper := looper;
  ConfigUpdate := unit;
  RegisterConfig := unit;
  driver_set_engine := fun d => d;
  driver_initialize := fun d => (d.1, d);
  driver_get_samplerate := fun d => d.2;
  new_EventGenerator := fun rate => mk_generator rate 0 [];
  createEvent := fun g =>
    (mkEvent 0 0 0 (S754_zero false) 0 (stamp g),
     mk_generator (samplerate g) (stamp g + 16) (fragments g));
  updateFragmentTime := fun nframes g =>
    mk_generator (samplerate g) 0 (fragments g ++ [nframes]);
  new_ControlOSC := fun p => mk_osc p [];
  osc_is_ok := fun o => (0 <? port o)%Z;
  osc_call := fun c o => mk_osc (port o) (calls o ++ [c]);
  new_Looper := fun _ idx ch => mk_looper idx ch [];
  looper_ok := fun l => ((chans l <=? 8)%Z, l);
  looper_run := fun start count l => record_call (Run start count) l;
  looper_do_event := fun evt l => record_call (DoEvent evt) l;
  looper_get_control_value := fun ctrl l => S754_finite false 1 0
|}.

(** The runs and the events in a list of calls. *)
Definition runs (cs : list Call) : list (nframes_t * nframes_t) :=
  omap (fun c => match c with Run s n => Some (s, n) | _ => None end) cs.

Definition events (cs : list Call) : list Event :=
  omap (fun c => match c with DoEvent e => Some e | _ => None end) cs.

(** The total number of frames of a list of runs. *)
Definition frames (rs : list (nframes_t * nframes_t)) : Z :=
  foldr (fun r acc => (r.2 + acc)%Z) 0%Z rs.

(** The runs tile [[start, stop)]: each begins where the previous one
    ended. *)
Fixpoint tiles (start stop : nframes_t) (rs : list (nframes_t * nframes_t))
  : Prop :=
  match rs with
  | [] => start = stop
  | (s, n) :: rest => s = start /\ (0 <= n)%Z /\ tiles (s + n)%Z stop rest
  end.

(** The buffer from [used] to [nframes] cut at the offsets [offs]: the
    spans, as pairs of a start and a length. *)
Fixpoint cuts (used : nframes_t) (offs : list Z) (nframes : nframes_t)
  : list (nframes_t * nframes_t) :=
  match offs with
  | [] => [(used, nframes - used)%Z]
  | o :: rest => (used, o - used)%Z :: cuts o rest nframes
  end.

(** An event is addressed to the instance at position [m]. *)
Definition addressed (m : nat) (evt : Event) : bool :=
  (Instance_ evt =? -1)%Z || (Instance_ evt =? Z.of_nat m)%Z.

(** The calls an instance at position [m] is to receive for a buffer of
    [nframes] frames, [used] of them rendered, when the events [evs] take
    effect at their offsets: a run up to each event, the event if it is
    addressed to the instance, and a last run to the end of the buffer. *)
Fixpoint partitioned_calls (nframes : nframes_t) (m : nat) (used : nframes_t)
    (evs : list Event) : list Call :=
  match evs with
  | [] => [Run used (nframes - used)%Z]
  | evt :: rest =>
      Run used (FragmentPos evt - used)%Z ::
      (if addressed m evt then [DoEvent evt] else []) ++
      partitioned_calls nframes m (FragmentPos evt) rest
  end.

(** One callback over [nframes] frames partitions the buffer at the
    offsets of the unread events of [q]: every instance receives the
    partitioned calls, that is, the events addressed to it in queue
    order, and runs that are the cuts of the buffer at the event offsets,
    tile it and add up to [nframes] frames. *)
Definition partitions_buffer (nframes : nframes_t) (e : @Engine externals)
    (q : RingBuffer.t Event) : Prop :=
  exists e',
    process nframes e = Some e' /\
    length (_instances e') = length (_instances e) /\
    forall m x,
      _instances e !! m = Some x ->
      exists x' cs,
        _instances e' !! m = Some x' /\
        log x' = log x ++ cs /\
        cs = partitioned_calls nframes m 0 (RingBuffer.pending q) /\
        events cs
        = filter (fun evt => addressed m evt = true) (RingBuffer.pending q) /\
        runs cs = cuts 0 (FragmentPos <$> RingBuffer.pending q) nframes /\
        tiles 0 nframes (runs cs) /\
        frames (runs cs) = nframes.

(** The fragment offsets of the events are strictly increasing and lie
    within [[0, nframes)]. *)
Definition offsets_increasing (nframes : nframes_t) (evs : list Event)
  : Prop :=
  StronglySorted Z.lt (FragmentPos <$> evs) /\
  Forall (fun evt => 0 <= FragmentPos evt < nframes)%Z evs.

End Recording.

(** ** Sample states

    Engines over the recording collaborators, used to run the operations on
    concrete inputs. *)

Module Demo.
Import Recording.

Local Existing Instance externals.

(** A command event for [instance] at fragment position [pos]. *)
Definition ev (pos : Z) (instance : Z) : Event :=
  mkEvent 0 1 0 (S754_zero false) instance pos.

Definition loopers : list looper :=
  [mk_looper 0 2 []; mk_looper 1 2 []; mk_looper 2 1 []].

(** An initialised engine with three loops and the given queue of
    real-time events. *)
Definition engine_with (q : RingBuffer.t Event) (locked : bool) : Engine :=
  mkEngine true (live (true, 44100%Z)) (live (mk_osc 9951 []))
    (live (mk_generator 44100 0 [])) (live q)
    (live (RingBuffer.new (PingEvent "" "") MAX_EVENTS))
    loopers 2 200 locked 0 [].

(** A queue of four slots whose unread events wrap around the end of the
    slot array: positions 64 (all instances), 128 (instance 1) and 200
    (instance 5, which does not exist). *)
Definition q_wrapped : RingBuffer.t Event :=
  RingBuffer.mk [ev 128 1; ev 200 5; Event_default; ev 64 (-1)] 6 3.

(** Unread: positions 128, then 64 (stale), then 200. *)
Definition q_stale : RingBuffer.t Event :=
  RingBuffer.mk [ev 128 1; ev 64 (-1); ev 200 0; Event_default] 3 0.

(** Unread: positions 128, then 200. *)
Definition q_fresh : RingBuffer.t Event :=
  RingBuffer.mk [ev 128 1; ev 200 0; Event_default; Event_default] 2 0.

(** A full queue of two slots. *)
Definition q_full : RingBuffer.t Event :=
  RingBuffer.mk [ev 128 1; ev 64 (-1)] 3 1.

(** The engine right after a successful [initialize]. *)
Definition initialized : Engine :=
  (initialize (true, 44100%Z) 9951 "" Engine_new).2.

(** The initialised engine after [MAX_EVENTS] administrative events have
    been pushed and none handled. *)
Definition flooded : option Engine :=
  Nat.iter MAX_EVENTS
    (fun oe => e ← oe; r ← push_nonrt_event (PingEvent "u" "p") e; Some r.2)
    (Some initialized).

End Demo.

(** ** Further operations

    The rest of [engine.cpp], and sequences of calls. *)

(** The getters of the control front end that the engine forwards
    ([control_osc.hpp]). *)
Class OscServer (X : Externals) : Type := {
  get_server_url : ControlOSC -> string;
  get_server_port : ControlOSC -> Z
}.

Section Further.
Context {X : Externals} {S : OscServer X}.

(** [Engine::get_osc_url].  No result stands for a call through a pointer
    to no live object. *)
Definition get_osc_url (e : Engine) : option string :=
  if is_set (_osc e) then
    osc ← deref (_osc e);
    if osc_is_ok osc then Some (get_server_url osc) else Some ""%string
  else Some ""%string.

(** [Engine::get_osc_port] *)
Definition get_osc_port (e : Engine) : option Z :=
  if is_set (_osc e) then
    osc ← deref (_osc e);
    if osc_is_ok osc then Some (get_server_port osc) else Some 0%Z
  else Some 0%Z.

(** Another thread takes or releases [_instance_lock]. *)
Definition set_instance_lock (held : bool) (e : Engine) : Engine :=
  mkEngine (_ok e) (_driver e) (_osc e) (_event_generator e) (_event_queue e)
    (_nonrt_event_queue e) (_instances e) (_def_channel_cnt e)
    (_def_loop_secs e) held (_event_cond e) (emitted e).

(** A sequence of [push_command_event] calls, each given as type, command
    and instance, with the results of the calls. *)
Fixpoint push_command_events (cmds : list (Z * Z * Z)) (e : Engine)
  : option (list bool * Engine) :=
  match cmds with
  | [] => Some ([], e)
  | (type, cmd, instance) :: rest =>
      r ← push_command_event type cmd instance e;
      rs ← push_command_events rest r.2;
      Some (r.1 :: rs.1, rs.2)
  end.

(** The reactions of the worker to a list of administrative events, one
    after the other. *)
Fixpoint handle_nonrt_events (events : list EventNonRT) (e : Engine)
  : option Engine :=
  match events with
  | [] => Some e
  | event :: rest =>
      e ← handle_nonrt_event event e;
      handle_nonrt_events rest e
  end.

(** The administrative event is a request to add or remove a loop. *)
Definition is_config_loop (event : EventNonRT) : bool :=
  match event with ConfigLoopEvent _ _ _ => true | _ => false end.

(** The events of a list that pass the check of the fragment position
    when they are dispatched in order, [usedframes] frames being used. *)
Fixpoint accepted (nframes usedframes : nframes_t) (evs : list Event)
  : list Event :=
  match evs with
  | [] => []
  | evt :: rest =>
      let fragpos := to_nframes (FragmentPos evt) in
      if (fragpos <? usedframes)%Z || (nframes <=? fragpos)%Z
      then accepted nframes usedframes rest
      else evt :: accepted nframes fragpos rest
  end.

End Further.

Module RecordingMore.
Import Recording.

(** The recorded front end serves a fixed host on its port. *)
Definition osc_server : OscServer externals :=
  Build_OscServer externals
    (fun o => "osc.udp://localhost/"%string)
    (fun o => port o).

(** The fragment position of an event as the callback reads it. *)
Definition fragpos (evt : Event) : nframes_t := to_nframes (FragmentPos evt).

(** The calls an instance at position [m] receives when the events [evs]
    are dispatched in order, [used] frames being used: an event with a bad
    fragment position gives none; any other gives a run up to it, and the
    event if it is addressed to the instance; a last run ends the
    buffer. *)
Fixpoint dispatched_calls (nframes : nframes_t) (m : nat) (used : nframes_t)
    (evs : list Event) : list Call :=
  match evs with
  | [] => [Run used (nframes - used)%Z]
  | evt :: rest =>
      if (fragpos evt <? used)%Z || (nframes <=? fragpos evt)%Z
      then dispatched_calls nframes m used rest
      else
        Run used (fragpos evt - used)%Z ::
        (if addressed m evt then [DoEvent evt] else []) ++
        dispatched_calls nframes m (fragpos evt) rest
  end.

(** The fragment positions of the events never decrease and lie within
    [[used, nframes)]. *)
Fixpoint offsets_nondecreasing (nframes used : nframes_t) (evs : list Event)
  : Prop :=
  match evs with
  | [] => True
  | evt :: rest =>
      (used <= FragmentPos evt < nframes)%Z /\
      offsets_nondecreasing nframes (FragmentPos evt) rest
  end.

End RecordingMore.

Module Demo2.
Import Recording Demo.

Local Existing Instance externals.

(** Unread: two events at position 64, then one at 128. *)
Definition q_equal : RingBuffer.t Event :=
  RingBuffer.mk [ev 64 0; ev 64 1; ev 128 (-1); Event_default] 3 0.

(** Unread: positions 128, 300 (past the buffer), 64 (stale), 128. *)
Definition q_mixed : RingBuffer.t Event :=
  RingBuffer.mk [ev 128 1; ev 300 0; ev 64 (-1); ev 128 2] 4 0.

(** An empty queue of four slots whose cursors are about to wrap. *)
Definition q_room : RingBuffer.t Event :=
  RingBuffer.mk [Event_default; Event_default; Event_default; Event_default] 3 3.

(** An administrative queue of four slots with three unread events. *)
Definition nq_three : RingBuffer.t EventNonRT :=
  RingBuffer.mk
    [ConfigLoopEvent Add 0 0; GetParamEvent 7 3 (S754_zero false);
     ConfigLoopEvent Remove 0 (-1); PingEvent "" ""] 3 0.

(** An initialised engine with the given administrative queue. *)
Definition engine_nonrt (nq : RingBuffer.t EventNonRT) : Engine :=
  mkEngine true (live (true, 44100%Z)) (live (mk_osc 9951 []))
    (live (mk_generator 44100 0 []))
    (live (RingBuffer.new Event_default 4)) (live nq)
    loopers 2 200 false 0 [].

End Demo2.

(** * Properties *)

(** ** Machine integers *)

Module IntFacts.
Import Int.

Lemma to_uint32_range z : (0 <= to_uint32 z < 2 ^ 32)%Z.
Proof. unfold to_uint32. apply Z.mod_pos_bound. lia. Qed.

Lemma to_uint32_small z : (0 <= z < 2 ^ 32)%Z -> to_uint32 z = z.
Proof. intros. unfold to_uint32. apply Z.mod_small. lia. Qed.

Lemma to_int32_small z : (- 2 ^ 31 <= z < 2 ^ 31)%Z -> to_int32 z = z.
Proof. intros. unfold to_int32. rewrite Z.mod_small; lia. Qed.

Lemma to_int32_to_size_t z : to_int32 (to_size_t z) = to_int32 z.
Proof.
  unfold to_int32, to_size_t.
  change (2 ^ 64)%Z with 18446744073709551616%Z.
  change (2 ^ 32)%Z with 4294967296%Z.
  change (2 ^ 31)%Z with 2147483648%Z.
  Z.div_mod_to_equations. lia.
Qed.

Lemma to_uint32_to_int32 z : to_uint32 (to_int32 z) = to_uint32 z.
Proof.
  unfold to_uint32, to_int32.
  change (2 ^ 32)%Z with 4294967296%Z.
  change (2 ^ 31)%Z with 2147483648%Z.
  Z.div_mod_to_equations. lia.
Qed.

End IntFacts.

(** ** The bounded queue *)

Module RingBufferFacts.
Import RingBuffer.

(** A cursor moved by [k] slots lands [k] slots further, or wraps
    around once. *)
Lemma mod_offset (C r k : nat) :
  0 < C -> k <= C ->
  (r + k) mod C =
    if C <=? r mod C + k then r mod C + k - C else r mod C + k.
Proof.
  intros HC Hk.
  pose proof (Nat.mod_upper_bound r C ltac:(lia)) as Hr.
  rewrite <- Nat.Div0.add_mod_idemp_l.
  destruct (Nat.leb_spec C (r mod C + k)) as [Hle|Hlt].
  - symmetry. apply (Nat.mod_unique _ _ 1); lia.
  - apply Nat.mod_small. lia.
Qed.

Section Facts.
Context {T : Type}.
Implicit Types (q : t T) (x : T).

Lemma region_total q c cnt :
  0 < size q ->
  len0 (region q c cnt) + len1 (region q c cnt) = cnt.
Proof.
  intros HC. unfold region.
  pose proof (Nat.mod_upper_bound c (size q) ltac:(lia)).
  destruct (Nat.ltb_spec (size q) (c mod size q + cnt)); simpl; lia.
Qed.

Lemma region_len0_zero q c cnt :
  0 < size q -> len0 (region q c cnt) = 0 <-> cnt = 0.
Proof.
  intros HC. unfold region.
  pose proof (Nat.mod_upper_bound c (size q) ltac:(lia)).
  destruct (Nat.ltb_spec (size q) (c mod size q + cnt)); simpl; lia.
Qed.

Lemma region_bounds q c cnt :
  0 < size q -> cnt <= size q ->
  let v := region q c cnt in
  buf0 v = c mod size q /\ buf0 v + len0 v <= size q /\
  buf1 v = 0 /\ len1 v <= size q.
Proof.
  intros HC Hcnt. unfold region.
  pose proof (Nat.mod_upper_bound c (size q) ltac:(lia)).
  destruct (Nat.ltb_spec (size q) (c mod size q + cnt)); simpl; lia.
Qed.

(** The two spans of a region hold the slots from the cursor on. *)
Lemma region_lookup q c cnt k :
  0 < size q -> cnt <= size q -> k < cnt ->
  let v := region q c cnt in
  (span q (buf0 v) (len0 v) ++ span q (buf1 v) (len1 v)) !! k
  = slots q !! ((c + k) mod size q).
Proof.
  intros HC Hcnt Hk. simpl.
  pose proof (Nat.mod_upper_bound c (size q) ltac:(lia)) as Hc.
  rewrite (mod_offset (size q) c k) by lia.
  unfold region, span, size in *.
  destruct (Nat.ltb_spec (length (slots q)) (c mod length (slots q) + cnt));
    simpl.
  - rewrite drop_0.
    destruct (Nat.leb_spec (length (slots q)) (c mod length (slots q) + k)).
    + rewrite lookup_app_r by (rewrite length_take, length_drop; lia).
      rewrite length_take, length_drop.
      rewrite lookup_take_lt by lia. f_equal. lia.
    + rewrite lookup_app_l by (rewrite length_take, length_drop; lia).
      by rewrite lookup_take_lt, lookup_drop by lia.
  - rewrite take_0, app_nil_r.
    rewrite lookup_take_lt, lookup_drop by lia.
    destruct (Nat.leb_spec (length (slots q)) (c mod length (slots q) + k));
      [lia | done].
Qed.

Lemma region_length q c cnt :
  0 < size q -> cnt <= size q ->
  let v := region q c cnt in
  length (span q (buf0 v) (len0 v) ++ span q (buf1 v) (len1 v)) = cnt.
Proof.
  intros HC Hcnt. simpl.
  pose proof (Nat.mod_upper_bound c (size q) ltac:(lia)) as Hc.
  unfold region, span, size in *.
  destruct (Nat.ltb_spec (length (slots q)) (c mod length (slots q) + cnt));
    simpl; rewrite length_app, !length_take, !length_drop; lia.
Qed.

Lemma read_space_le q : wf q -> read_space q <= size q.
Proof. intros []. unfold read_space. lia. Qed.

Lemma pending_length q : wf q -> length (pending q) = read_space q.
Proof.
  intros Hwf. apply region_length; [apply Hwf | by apply read_space_le].
Qed.

Lemma pending_lookup q k :
  wf q -> k < read_space q ->
  pending q !! k = slots q !! ((read_ptr q + k) mod size q).
Proof.
  intros Hwf Hk.
  apply region_lookup; [apply Hwf | by apply read_space_le | done].
Qed.

(** The write region is empty exactly when its first span is. *)
Lemma write_vector_full q :
  wf q -> len (get_write_vector q) 0 = 0 <-> write_space q = 0.
Proof. intros Hwf. apply region_len0_zero, Hwf. Qed.

Lemma read_vector_empty q :
  wf q -> len (get_read_vector q) 0 = 0 <-> pending q = [].
Proof.
  intros Hwf. unfold get_read_vector. simpl.
  rewrite region_len0_zero by apply Hwf.
  rewrite <- pending_length by done.
  split; [apply nil_length_inv | by intros ->].
Qed.

(** Storing into the first free slot and moving the write cursor by
    one appends to the unread elements. *)
Lemma pending_push q x :
  wf q -> 0 < write_space q ->
  pending (increment_write_ptr 1 (store (buf (get_write_vector q) 0) x q))
  = pending q ++ [x].
Proof.
  intros Hwf Hfree.
  pose proof Hwf as [HC Hord Hbnd].
  set (q' := increment_write_ptr 1 _).
  assert (Hsz : size q' = size q).
  { unfold q', size. simpl. apply length_insert. }
  assert (Hwf' : wf q').
  { split; rewrite ?Hsz; unfold q'; simpl; [done | lia |].
    unfold write_space, read_space in Hfree. lia. }
  assert (Hrs : read_space q' = S (read_space q)).
  { unfold q', read_space. simpl. lia. }
  assert (Hb : buf (get_write_vector q) 0 = write_ptr q mod size q).
  { apply region_bounds; [done |]. unfold write_space. lia. }
  apply list_eq. intros k.
  destruct (Nat.lt_ge_cases k (read_space q')) as [Hk|Hk].
  - rewrite pending_lookup by done.
    rewrite Hsz.
    change (slots q') with (<[buf (get_write_vector q) 0 := x]> (slots q)).
    change (read_ptr q') with (read_ptr q).
    rewrite Hb.
    destruct (Nat.eq_dec k (read_space q)) as [->|Hne].
    + replace (read_ptr q + read_space q) with (write_ptr q)
        by (unfold read_space; lia).
      rewrite list_lookup_insert_eq
        by (apply Nat.mod_upper_bound; unfold size in HC; lia).
      rewrite lookup_app_r by (rewrite pending_length; done).
      rewrite pending_length by done.
      by rewrite Nat.sub_diag.
    + rewrite lookup_app_l by (rewrite pending_length by done; lia).
      rewrite pending_lookup by (done || lia).
      apply list_lookup_insert_ne.
      unfold write_space, read_space in *.
      replace (write_ptr q) with (read_ptr q + (write_ptr q - read_ptr q))
        by lia.
      rewrite !(mod_offset (size q) (read_ptr q)) by lia.
      pose proof (Nat.mod_upper_bound (read_ptr q) (size q) ltac:(lia)).
      repeat case_match; rewrite ?Nat.leb_le, ?Nat.leb_gt in *; lia.
  - rewrite lookup_ge_None_2 by (rewrite pending_length; done).
    symmetry. apply lookup_ge_None_2.
    rewrite length_app, pending_length by done. simpl. lia.
Qed.

Lemma wf_push q x :
  wf q -> 0 < write_space q ->
  wf (increment_write_ptr 1 (store (buf (get_write_vector q) 0) x q)).
Proof.
  intros [HC Hord Hbnd] Hfree.
  unfold write_space, read_space in Hfree.
  split; unfold size in *; simpl; rewrite ?length_insert; lia.
Qed.

Lemma wf_new (dflt : T) sz : 0 < sz -> wf (new dflt sz).
Proof.
  intros. split; unfold size; simpl; rewrite ?length_replicate; lia.
Qed.

End Facts.
End RingBufferFacts.

(** ** The event loop *)

Section EventLoop.
Context {X : Externals}.
Import RingBuffer.
Implicit Types (q : RingBuffer.t Event) (vec : rw_vector).

Lemma dispatch_all_app nframes evs1 evs2 st :
  dispatch_all nframes (evs1 ++ evs2) st
  = dispatch_all nframes evs2 (dispatch_all nframes evs1 st).
Proof. apply foldl_app. Qed.

Lemma dispatch_all_cons nframes evt evs st :
  dispatch_all nframes (evt :: evs) st
  = dispatch_all nframes evs
      (dispatch_event nframes evt (to_nframes (FragmentPos evt)) st).
Proof. reflexivity. Qed.

Lemma drop_lookup_cons {A} (l : list A) i x :
  l !! i = Some x -> drop i l = x :: drop (S i) l.
Proof.
  revert i. induction l as [|y l IH]; intros [|i] H; simplify_eq/=; auto.
Qed.

(** The loop on the second span: [k] events are left. *)
Lemma event_loop_second nframes q vec k :
  forall fuel n st,
    n + k = len1 vec ->
    buf1 vec + len1 vec <= length (slots q) ->
    k < fuel ->
    event_loop fuel nframes q vec n (len1 vec) 1 st
    = Some (dispatch_all nframes (take k (drop (buf1 vec + n) (slots q))) st).
Proof.
  induction k as [|k IH]; intros [|fuel] n st Hn Hb Hfuel; try lia; simpl.
  - rewrite (proj2 (Nat.ltb_ge _ _)) by lia. done.
  - rewrite (proj2 (Nat.ltb_lt _ _)) by lia.
    destruct (lookup_lt_is_Some_2 (slots q) (buf1 vec + n)) as [evt Hevt];
      [lia |].
    rewrite Hevt. simpl.
    rewrite (drop_lookup_cons _ _ _ Hevt). simpl.
    rewrite andb_false_r.
    rewrite IH by lia.
    by replace (buf1 vec + (n + 1)) with (S (buf1 vec + n)) by lia.
Qed.

(** The loop on the first span: [S k] events are left in it, and the
    second span follows. *)
Lemma event_loop_first nframes q vec k :
  forall fuel n st,
    n + S k = len0 vec ->
    buf0 vec + len0 vec <= length (slots q) ->
    buf1 vec + len1 vec <= length (slots q) ->
    S k + len1 vec < fuel ->
    event_loop fuel nframes q vec n (len0 vec) 0 st
    = Some (dispatch_all nframes
              (take (S k) (drop (buf0 vec + n) (slots q))
               ++ take (len1 vec) (drop (buf1 vec) (slots q))) st).
Proof.
  induction k as [|k IH]; intros [|fuel] n st Hn Hb0 Hb1 Hfuel; try lia.
  - cbn [event_loop].
    rewrite (proj2 (Nat.ltb_lt _ _)) by lia.
    destruct (lookup_lt_is_Some_2 (slots q) (buf0 vec + n)) as [evt Hevt];
      [lia |].
    cbn [buf]. rewrite Hevt. cbn [mbind option_bind].
    rewrite (drop_lookup_cons _ _ _ Hevt).
    rewrite (proj2 (Nat.eqb_eq (n + 1) (len0 vec))) by lia.
    cbn [andb Nat.eqb len].
    rewrite (event_loop_second _ _ _ (len1 vec)) by lia.
    by rewrite Nat.add_0_r.
  - cbn [event_loop].
    rewrite (proj2 (Nat.ltb_lt _ _)) by lia.
    destruct (lookup_lt_is_Some_2 (slots q) (buf0 vec + n)) as [evt Hevt];
      [lia |].
    cbn [buf]. rewrite Hevt. cbn [mbind option_bind].
    rewrite (drop_lookup_cons _ _ _ Hevt).
    rewrite (proj2 (Nat.eqb_neq (n + 1) (len0 vec))) by lia.
    cbn [andb].
    rewrite IH by lia.
    by replace (buf0 vec + (n + 1)) with (S (buf0 vec + n)) by lia.
Qed.

(** With the fuel [process] gives it, the loop dispatches the unread
    events of the queue in queue order. *)
Lemma event_loop_pending nframes q st :
  wf q ->
  let vec := get_read_vector q in
  0 < len vec 0 ->
  event_loop (S (len vec 0 + len vec 1)) nframes q vec 0 (len vec 0) 0 st
  = Some (dispatch_all nframes (pending q) st).
Proof.
  intros Hwf vec Hpos.
  pose proof (RingBufferFacts.region_bounds q (read_ptr q) (read_space q)
                (wf_size q Hwf) (RingBufferFacts.read_space_le q Hwf))
    as (_ & Hb0 & Hb1 & Hl1).
  fold (get_read_vector q) in Hb0, Hb1, Hl1. fold vec in Hb0, Hb1, Hl1.
  cbn [len] in *.
  destruct (len0 vec) as [|k] eqn:Hk; [lia |].
  rewrite <- Hk.
  rewrite (event_loop_first nframes q vec k) by (unfold size in *; lia).
  unfold pending, span. fold vec.
  by rewrite Nat.add_0_r, Hk.
Qed.

End EventLoop.

(** ** The real-time callback *)

Section Process.
Context {X : Externals}.
Import RingBuffer.
Implicit Types (e : Engine) (q : RingBuffer.t Event).

Lemma wf_read_all q :
  wf q ->
  let vec := get_read_vector q in
  let q' := increment_read_ptr (len vec 0 + len vec 1) q in
  wf q' /\ pending q' = [].
Proof.
  intros Hwf vec q'.
  pose proof Hwf as [HC Hord Hbnd].
  assert (Hlen : len vec 0 + len vec 1 = read_space q)
    by (apply RingBufferFacts.region_total; done).
  assert (Hwf' : wf q').
  { unfold q'. rewrite Hlen. unfold read_space.
    split; unfold size in *; simpl; lia. }
  split; [done |].
  apply nil_length_inv. rewrite RingBufferFacts.pending_length by done.
  unfold q'. rewrite Hlen. unfold read_space. simpl. lia.
Qed.

(** What [process] does when it gets the lock: the unread events are
    dispatched in queue order, the rest of the buffer is run, and the
    queue is left empty. *)
Lemma process_unlocked nframes e q g :
  _instance_lock e = false ->
  _event_queue e = live q ->
  _event_generator e = live g ->
  wf q ->
  (0 <= nframes < 2 ^ 32)%Z ->
  exists e' q',
    process nframes e = Some e' /\
    _instances e' = rendered nframes (pending q) (_instances e) /\
    _event_queue e' = live q' /\ wf q' /\ pending q' = [] /\
    _event_generator e' = live (updateFragmentTime nframes g).
Proof.
  intros Hlock Hq Hg Hwf Hn.
  unfold process. rewrite Hlock, Hq, Hg. cbn [deref mbind option_bind negb].
  destruct (Nat.ltb_spec 0 (len (get_read_vector q) 0)) as [Hpos|Hzero].
  - rewrite event_loop_pending by done.
    cbn [mbind option_bind _instances set_event_generator].
    unfold rendered.
    destruct (dispatch_all nframes (pending q) (0%Z, _instances e))
      as [used insts].
    destruct (wf_read_all q Hwf) as [Hwf' Hnil].
    eexists _, _. split; [reflexivity |].
    repeat split; simpl; try done; apply Hwf'.
  - assert (Hnil : pending q = []).
    { apply RingBufferFacts.read_vector_empty; [done | lia]. }
    exists (set_instances (looper_run 0%Z nframes <$> _instances e)
              (set_event_generator (live (updateFragmentTime nframes g)) e)), q.
    split; [reflexivity |].
    rewrite Hnil. unfold rendered. cbn.
    unfold nframes_sub, to_nframes. rewrite Z.sub_0_r.
    rewrite IntFacts.to_uint32_small by done.
    repeat split; try done; apply Hwf.
Qed.

(** What [process] does when the lock is held elsewhere. *)
Lemma process_locked nframes e q g :
  _instance_lock e = true ->
  _event_queue e = live q ->
  _event_generator e = live g ->
  process nframes e
  = Some (set_event_generator (live (updateFragmentTime nframes g)) e).
Proof. intros Hlock Hq Hg. unfold process. by rewrite Hlock, Hq, Hg. Qed.

End Process.

(** ** Dispatching one event *)

Section Dispatch.
Context {X : Externals}.

Lemma dispatch_instances_length evt used doframes insts :
  forall m, length (dispatch_instances evt used doframes m insts) = length insts.
Proof. induction insts as [|i rest IH]; intros m; simpl; auto. Qed.

Lemma dispatch_instances_lookup evt used doframes insts :
  forall m k x,
    insts !! k = Some x ->
    dispatch_instances evt used doframes m insts !! k
    = Some (let i := looper_run used doframes x in
            if (Instance_ evt =? -1)%Z || (Instance_ evt =? m + Z.of_nat k)%Z
            then looper_do_event evt i else i).
Proof.
  induction insts as [|i rest IH]; intros m [|k] x H; simplify_eq/=.
  - by rewrite Z.add_0_r.
  - rewrite (IH _ _ _ H). simpl.
    by replace (m + 1 + Z.of_nat k)%Z with (m + Z.pos (Pos.of_succ_nat k))%Z
      by lia.
Qed.

Lemma dispatch_event_bad nframes evt fragpos st :
  (fragpos < st.1)%Z \/ (nframes <= fragpos)%Z ->
  dispatch_event nframes evt fragpos st = st.
Proof.
  destruct st as [used insts]. simpl. intros Hbad.
  assert ((fragpos <? used)%Z || (nframes <=? fragpos)%Z = true) as ->; [|done].
  apply orb_true_iff. rewrite Z.ltb_lt, Z.leb_le. done.
Qed.

Lemma dispatch_event_valid nframes evt fragpos used insts :
  (0 <= used <= fragpos)%Z -> (fragpos < nframes)%Z -> (fragpos < 2 ^ 32)%Z ->
  dispatch_event nframes evt fragpos (used, insts)
  = (fragpos, dispatch_instances evt used (fragpos - used) 0 insts).
Proof.
  intros Hu Hn Hr. simpl.
  assert ((fragpos <? used)%Z || (nframes <=? fragpos)%Z = false) as ->.
  { apply orb_false_iff. rewrite Z.ltb_ge, Z.leb_gt. lia. }
  unfold nframes_add, nframes_sub, to_nframes.
  rewrite (IntFacts.to_uint32_small (fragpos - used)) by lia.
  rewrite IntFacts.to_uint32_small by lia.
  f_equal. lia.
Qed.

Lemma dispatch_event_length nframes evt fragpos st :
  length (dispatch_event nframes evt fragpos st).2 = length st.2.
Proof.
  destruct st as [used insts]. simpl.
  destruct (_ || _); simpl; [done |]. apply dispatch_instances_length.
Qed.

Lemma dispatch_all_length nframes evs :
  forall st, length (dispatch_all nframes evs st).2 = length st.2.
Proof.
  induction evs as [|evt rest IH]; intros st; [done |].
  rewrite dispatch_all_cons, IH. apply dispatch_event_length.
Qed.

Lemma rendered_length nframes evs insts :
  length (rendered nframes evs insts) = length insts.
Proof.
  unfold rendered.
  pose proof (dispatch_all_length nframes evs (0%Z, insts)) as H.
  destruct (dispatch_all _ _ _) as [used insts']. simpl in H.
  by rewrite length_fmap.
Qed.

End Dispatch.

(** ** Claims about the real-time callback *)

Section ProcessClaims.
Context {X : Externals}.
Import RingBuffer.

(** C2: an unread event whose fragment position is past the buffer, or
    before the frames already used when its turn comes, is skipped.  The
    loop state (used frames, instances) is the same after it as before
    it, and the whole callback leaves every instance as it leaves it
    when the event is not in the queue at all: no instance runs for it
    nor takes it. *)
Theorem bad_fragment_pos_skipped nframes (e1 e2 : Engine) q1 q2 g1 g2
    pre evt post :
  _instance_lock e1 = _instance_lock e2 ->
  _event_queue e1 = live q1 -> _event_queue e2 = live q2 ->
  _event_generator e1 = live g1 -> _event_generator e2 = live g2 ->
  wf q1 -> wf q2 ->
  (0 <= nframes < 2 ^ 32)%Z ->
  _instances e1 = _instances e2 ->
  pending q1 = pre ++ evt :: post ->
  pending q2 = pre ++ post ->
  let st := dispatch_all nframes pre (0%Z, _instances e1) in
  let fragpos := to_nframes (FragmentPos evt) in
  (fragpos < st.1)%Z \/ (nframes <= fragpos)%Z ->
  dispatch_event nframes evt fragpos st = st /\
  exists e1' e2',
    process nframes e1 = Some e1' /\
    process nframes e2 = Some e2' /\
    _instances e1' = _instances e2'.
Proof.
  intros Hlock Hq1 Hq2 Hg1 Hg2 Hwf1 Hwf2 Hn Hinsts Hp1 Hp2 st fragpos Hbad.
  pose proof (dispatch_event_bad nframes evt fragpos st Hbad) as Hskip.
  split; [done |].
  destruct (_instance_lock e1) eqn:Hl1; symmetry in Hlock.
  { eexists _, _.
    split; [by apply (process_locked nframes e1 q1 g1) |].
    split; [by apply (process_locked nframes e2 q2 g2) |].
    done. }
  destruct (process_unlocked nframes e1 q1 g1) as (e1' & ? & Hr1 & Hi1 & _);
    try done.
  destruct (process_unlocked nframes e2 q2 g2) as (e2' & ? & Hr2 & Hi2 & _);
    try done.
  exists e1', e2'. repeat split; try done.
  rewrite Hi1, Hi2, Hp1, Hp2, <- Hinsts. unfold rendered.
  rewrite !dispatch_all_app. fold st.
  rewrite dispatch_all_cons. fold fragpos.
  by rewrite Hskip.
Qed.

(** C6: when the instance lock is held elsewhere, the callback only
    updates the fragment time of the event generator: the instances are
    untouched (none runs, none takes an event) and the queue, with its
    read cursor and its unread events, is as before. *)
Theorem process_lock_busy nframes (e : Engine) q g :
  _instance_lock e = true ->
  _event_queue e = live q ->
  _event_generator e = live g ->
  exists e',
    process nframes e = Some e' /\
    e' = set_event_generator (live (updateFragmentTime nframes g)) e /\
    _event_generator e' = live (updateFragmentTime nframes g) /\
    _instances e' = _instances e /\
    _event_queue e' = live q /\
    emitted e' = emitted e.
Proof.
  intros Hlock Hq Hg.
  eexists. split; [by apply (process_locked nframes e q g) |].
  by repeat split.
Qed.

End ProcessClaims.

(** ** The calls the instances receive *)

Module RecordingFacts.
Import RingBuffer Recording.

Local Existing Instance externals.

Lemma dispatch_instances_log evt used doframes (insts : list looper) m x :
  insts !! m = Some x ->
  dispatch_instances evt used doframes 0 insts !! m
  = Some (mk_looper (index x) (chans x)
            (log x ++ Run used doframes ::
               (if addressed m evt then [DoEvent evt] else []))).
Proof.
  intros H. rewrite (dispatch_instances_lookup (X:=externals) _ _ _ _ _ _ _ H).
  unfold addressed. rewrite Z.add_0_l. simpl.
  destruct (_ || _); unfold record_call; simpl; [|done].
  by rewrite <- app_assoc.
Qed.

(** From [used] frames on, events with increasing offsets are all
    dispatched, and each instance receives the partitioned calls. *)
Lemma rendered_log nframes evs :
  forall used (insts : list looper),
    (0 <= used <= nframes)%Z -> (nframes < 2 ^ 32)%Z ->
    Forall (fun evt => used <= FragmentPos evt < nframes)%Z evs ->
    StronglySorted Z.lt (FragmentPos <$> evs) ->
    forall m x,
      insts !! m = Some x ->
      (let '(u, l) := dispatch_all nframes evs (used, insts) in
       looper_run u (nframes_sub nframes u) <$> l) !! m
      = Some (mk_looper (index x) (chans x)
                (log x ++ partitioned_calls nframes m used evs)).
Proof.
  induction evs as [|evt rest IH]; intros used insts Hu Hn Hall Hsorted m x Hm.
  - simpl. rewrite list_lookup_fmap, Hm. simpl.
    unfold record_call, nframes_sub, to_nframes. simpl.
    by rewrite IntFacts.to_uint32_small by lia.
  - inversion Hall as [|? ? Hevt Hall']; subst. clear Hall. rename Hall' into Hall.
    rewrite fmap_cons in Hsorted.
    apply StronglySorted_inv in Hsorted as [Hsorted Hlt].
    rewrite dispatch_all_cons.
    unfold to_nframes at 1.
    rewrite IntFacts.to_uint32_small by lia.
    rewrite (dispatch_event_valid (X:=externals)) by lia.
    erewrite IH; [| lia | done | | done | by apply dispatch_instances_log].
    + simpl. by rewrite <- app_assoc.
    + rewrite Forall_fmap in Hlt.
      eapply Forall_impl; [apply Forall_and; split; [exact Hall | exact Hlt] |].
      simpl. intros evt' [? ?]. lia.
Qed.

Lemma events_app cs1 cs2 : events (cs1 ++ cs2) = events cs1 ++ events cs2.
Proof. apply omap_app. Qed.

Lemma runs_app cs1 cs2 : runs (cs1 ++ cs2) = runs cs1 ++ runs cs2.
Proof. apply omap_app. Qed.

Lemma partitioned_events nframes m evs :
  forall used,
    events (partitioned_calls nframes m used evs)
    = filter (fun evt => addressed m evt = true) evs.
Proof.
  induction evs as [|evt rest IH]; intros used; [done |].
  cbn [partitioned_calls].
  change (events (?c :: ?l)) with (events ([c] ++ l)).
  rewrite !events_app, IH, filter_cons.
  by destruct (addressed m evt).
Qed.

Lemma partitioned_runs nframes m evs :
  forall used,
    runs (partitioned_calls nframes m used evs)
    = cuts used (FragmentPos <$> evs) nframes.
Proof.
  induction evs as [|evt rest IH]; intros used; [done |].
  cbn [partitioned_calls].
  change (runs (?c :: ?l)) with (runs ([c] ++ l)).
  rewrite !runs_app, IH.
  by destruct (addressed m evt).
Qed.

Lemma cuts_tiles nframes offs :
  forall used,
    (used <= nframes)%Z ->
    Forall (fun o => used <= o <= nframes)%Z offs ->
    StronglySorted Z.lt offs ->
    tiles used nframes (cuts used offs nframes) /\
    frames (cuts used offs nframes) = (nframes - used)%Z.
Proof.
  induction offs as [|o rest IH]; intros used Hu Hall Hsorted; simpl.
  - repeat split; lia.
  - inversion Hall as [|? ? Ho Hall']; subst. clear Hall. rename Hall' into Hall.
    apply StronglySorted_inv in Hsorted as [Hsorted Hlt].
    destruct (IH o) as [Ht Hf]; [lia | | done |].
    { eapply Forall_impl; [apply Forall_and; split; [exact Hall | exact Hlt] |].
      simpl. intros o' [? ?]. lia. }
    rewrite Hf. replace (used + (o - used))%Z with o by lia.
    repeat split; [lia | done | lia].
Qed.

End RecordingFacts.

(** ** Claims about the calls the instances receive *)

Module RecordingClaims.
Import RingBuffer Recording RecordingFacts.

Local Existing Instance externals.

(** C1, amended: when the callback gets the instance lock and the unread
    events have strictly increasing fragment offsets within the buffer,
    it gives every instance the partitioned calls: a run up to each event
    offset, the event itself when it is addressed to the instance (in
    queue order, which is offset order), and a run to the end of the
    buffer.  The runs are the cuts of the buffer at the event offsets:
    they tile the buffer and their lengths add up to the frame count. *)
Theorem process_partitions_buffer nframes (e : Engine) q g :
  _instance_lock e = false ->
  _event_queue e = live q ->
  _event_generator e = live g ->
  wf q ->
  (0 <= nframes < 2 ^ 32)%Z ->
  offsets_increasing nframes (pending q) ->
  partitions_buffer nframes e q.
Proof.
  intros Hlock Hq Hg Hwf Hn [Hsorted Hrange].
  destruct (process_unlocked nframes e q g) as (e' & q' & Hp & Hi & _);
    try done.
  exists e'. split; [done |]. split.
  { rewrite Hi. apply rendered_length. }
  intros m x Hm.
  pose proof (rendered_log nframes (pending q) 0%Z (_instances e)
                ltac:(lia) ltac:(lia) Hrange Hsorted m x Hm) as Hlog.
  eexists _, (partitioned_calls nframes m 0 (pending q)).
  split; [rewrite Hi; exact Hlog |].
  split; [done |]. split; [done |].
  split; [apply partitioned_events |].
  rewrite partitioned_runs.
  split; [done |].
  destruct (cuts_tiles nframes (FragmentPos <$> pending q) 0%Z) as [Ht Hf];
    [lia | | done |].
  { apply Forall_fmap. eapply Forall_impl; [exact Hrange |].
    simpl. intros. lia. }
  split; [done |]. rewrite Hf. lia.
Qed.

(** C3: a valid event (its fragment position is neither before the used
    frames nor past the buffer) makes every instance run up to it; an
    event for instance -1 is then given to every instance, and an event
    for a non-negative instance number is given to the instance at that
    position and to no other. *)
Theorem valid_event_addressing nframes evt used (insts : list looper) :
  let fragpos := to_nframes (FragmentPos evt) in
  (0 <= used <= fragpos)%Z ->
  (fragpos < nframes)%Z ->
  exists insts',
    dispatch_event nframes evt fragpos (used, insts) = (fragpos, insts') /\
    length insts' = length insts /\
    forall m x,
      insts !! m = Some x ->
      exists x',
        insts' !! m = Some x' /\
        (Instance_ evt = (-1)%Z ->
         log x' = log x ++ [Run used (fragpos - used); DoEvent evt]) /\
        ((0 <= Instance_ evt)%Z -> Z.of_nat m = Instance_ evt ->
         log x' = log x ++ [Run used (fragpos - used); DoEvent evt]) /\
        ((0 <= Instance_ evt)%Z -> Z.of_nat m <> Instance_ evt ->
         log x' = log x ++ [Run used (fragpos - used)]).
Proof.
  intros fragpos Hu Hn.
  pose proof (IntFacts.to_uint32_range (FragmentPos evt)) as Hr.
  fold (to_nframes (FragmentPos evt)) in Hr. fold fragpos in Hr.
  eexists. split; [apply (dispatch_event_valid (X:=externals)); lia |].
  split; [apply (dispatch_instances_length (X:=externals)) |].
  intros m x Hm.
  eexists. split; [by apply dispatch_instances_log |].
  unfold addressed. simpl.
  repeat split.
  - intros ->. done.
  - intros _ <-. by rewrite Z.eqb_refl, orb_true_r.
  - intros Hpos Hne.
    rewrite (proj2 (Z.eqb_neq (Instance_ evt) (-1))) by lia.
    rewrite (proj2 (Z.eqb_neq (Instance_ evt) (Z.of_nat m))) by lia.
    done.
Qed.

End RecordingClaims.

(** ** The callback on sample states *)

Module ProcessExamples.
Import RingBuffer Recording Demo.

Local Existing Instance externals.

Lemma wf_q_wrapped : wf q_wrapped.
Proof. split; vm_compute; lia. Qed.

Lemma wf_q_stale : wf q_stale.
Proof. split; vm_compute; lia. Qed.

Lemma wf_q_fresh : wf q_fresh.
Proof. split; vm_compute; lia. Qed.

Example pending_q_wrapped : pending q_wrapped = [ev 64 (-1); ev 128 1; ev 200 5].
Proof. reflexivity. Qed.

(** Three unread events over three instances and 256 frames: every
    instance runs 0..64, 64..128, 128..200 and 200..256; the first event
    goes to all, the second to instance 1, the third to none. *)
Example process_q_wrapped :
  (fun e' => (log <$> _instances e', pending <$> deref (_event_queue e')))
    <$> process 256 (engine_with q_wrapped false)
  = Some
      ([ [Run 0 64; DoEvent (ev 64 (-1)); Run 64 64; Run 128 72; Run 200 56];
         [Run 0 64; DoEvent (ev 64 (-1)); Run 64 64; DoEvent (ev 128 1);
          Run 128 72; Run 200 56];
         [Run 0 64; DoEvent (ev 64 (-1)); Run 64 64; Run 128 72; Run 200 56] ],
       Some []).
Proof. vm_compute. reflexivity. Qed.

(** With an empty queue every instance runs the whole buffer once. *)
Example process_no_events :
  (fun e' => log <$> _instances e')
    <$> process 256 (engine_with (RingBuffer.new Event_default 4) false)
  = Some [[Run 0 256]; [Run 0 256]; [Run 0 256]].
Proof. vm_compute. reflexivity. Qed.

(** The stale event at position 64 after the one at 128 leaves no
    trace. *)
Example process_q_stale :
  (fun e' => log <$> _instances e') <$> process 256 (engine_with q_stale false)
  = Some
      [ [Run 0 128; Run 128 72; DoEvent (ev 200 0); Run 200 56];
        [Run 0 128; DoEvent (ev 128 1); Run 128 72; Run 200 56];
        [Run 0 128; Run 128 72; Run 200 56] ].
Proof. vm_compute. reflexivity. Qed.

Lemma process_partitions_buffer_witness :
  partitions_buffer 256 (engine_with q_wrapped false) q_wrapped.
Proof.
  apply (RecordingClaims.process_partitions_buffer 256
           (engine_with q_wrapped false) q_wrapped (mk_generator 44100 0 [])).
  - reflexivity.
  - reflexivity.
  - reflexivity.
  - split; vm_compute; lia.
  - lia.
  - split; vm_compute; repeat constructor; intros; discriminate.
Defined.

(** C1 as stated fails when the instance lock is held elsewhere: with
    the same queue, whose three unread events have increasing offsets
    within the 256 frames, no instance receives any call, so the runs of
    an instance add up to 0 frames, not to 256. *)
Lemma process_lock_busy_counterexample :
  _event_queue (engine_with q_wrapped true) = live q_wrapped /\
  wf q_wrapped /\
  offsets_increasing 256 (pending q_wrapped) /\
  (fun e' => log <$> _instances e') <$> process 256 (engine_with q_wrapped true)
  = Some [[]; []; []] /\
  ~ partitions_buffer 256 (engine_with q_wrapped true) q_wrapped.
Proof.
  split; [reflexivity |].
  split; [split; vm_compute; lia |].
  split; [split; vm_compute; repeat constructor; intros; discriminate |].
  split; [reflexivity |].
  intros (e' & Hp & _ & Hcalls).
  injection Hp as <-.
  destruct (Hcalls 0 (mk_looper 0 2 []) eq_refl)
    as (x' & cs & Hx & Hlog & _ & _ & _ & _ & Hframes).
  injection Hx as <-.
  simpl in Hlog. subst cs. discriminate Hframes.
Qed.

Lemma bad_fragment_pos_skipped_witness :
  exists e1' e2',
    process 256 (engine_with q_stale false) = Some e1' /\
    process 256 (engine_with q_fresh false) = Some e2' /\
    _instances e1' = _instances e2'.
Proof.
  refine (proj2 (bad_fragment_pos_skipped 256
            (engine_with q_stale false) (engine_with q_fresh false)
            q_stale q_fresh (mk_generator 44100 0 []) (mk_generator 44100 0 [])
            [ev 128 1] (ev 64 (-1)) [ev 200 0]
            _ _ _ _ _ _ _ _ _ _ _ _)).
  - reflexivity.
  - reflexivity.
  - reflexivity.
  - reflexivity.
  - reflexivity.
  - split; vm_compute; lia.
  - split; vm_compute; lia.
  - lia.
  - reflexivity.
  - reflexivity.
  - reflexivity.
  - left. vm_compute. reflexivity.
Defined.

Lemma process_lock_busy_witness :
  exists e',
    process 256 (engine_with q_wrapped true) = Some e' /\
    _instances e' = loopers /\
    _event_queue e' = live q_wrapped.
Proof.
  destruct (process_lock_busy 256 (engine_with q_wrapped true) q_wrapped
              (mk_generator 44100 0 []))
    as (e' & Hp & _ & _ & Hi & Hq & _).
  - reflexivity.
  - reflexivity.
  - reflexivity.
  - exists e'. auto.
Defined.

Lemma valid_event_addressing_witness :
  exists insts',
    dispatch_event 256 (ev 128 1) 128 (64%Z, loopers) = (128%Z, insts') /\
    log <$> insts' = [[Run 64 64]; [Run 64 64; DoEvent (ev 128 1)]; [Run 64 64]].
Proof.
  destruct (RecordingClaims.valid_event_addressing 256 (ev 128 1) 64 loopers)
    as (insts' & Hd & Hlen & Hlog).
  - vm_compute. split; discriminate.
  - reflexivity.
  - exists insts'. split; [exact Hd |].
    injection Hd as <-. reflexivity.
Defined.

End ProcessExamples.

(** ** Claims about pushing events *)

Section PushClaims.
Context {X : Externals}.
Import RingBuffer.
Implicit Types (e : Engine).

(** C4: when the write region of the real-time queue is empty, both
    push operations return false and leave the engine, and with it the
    queue and its unread events, as it was.  Otherwise they return true,
    the unread events are the former ones followed by the one stamped
    event, and the write cursor has moved by one. *)
Theorem push_event_full_or_stamped e q :
  _event_queue e = live q ->
  wf q ->
  let vec := get_write_vector q in
  (len vec 0 + len vec 1 = 0 ->
   (forall type cmd instance,
      push_command_event type cmd instance e = Some (false, e)) /\
   (forall type ctrl val instance,
      push_control_event type ctrl val instance e = Some (false, e))) /\
  (0 < len vec 0 + len vec 1 ->
   forall g, _event_generator e = live g ->
   (forall type cmd instance,
      exists e' q',
        push_command_event type cmd instance e = Some (true, e') /\
        _event_queue e' = live q' /\
        pending q' = pending q ++ [command_event g type cmd instance] /\
        write_ptr q' = write_ptr q + 1 /\
        read_ptr q' = read_ptr q /\
        wf q' /\
        _instances e' = _instances e) /\
   (forall type ctrl val instance,
      exists e' q',
        push_control_event type ctrl val instance e = Some (true, e') /\
        _event_queue e' = live q' /\
        pending q' = pending q ++ [control_event g type ctrl val instance] /\
        write_ptr q' = write_ptr q + 1 /\
        read_ptr q' = read_ptr q /\
        wf q' /\
        _instances e' = _instances e)).
Proof.
  intros Hq Hwf vec.
  assert (Htotal : len vec 0 + len vec 1 = write_space q)
    by (apply RingBufferFacts.region_total, Hwf).
  pose proof (RingBufferFacts.write_vector_full q Hwf) as Hfull.
  fold vec in Hfull.
  split.
  - intros Hempty.
    assert (Hz : (len vec 0 =? 0) = true) by (apply Nat.eqb_eq; lia).
    split; intros; unfold push_command_event, push_control_event;
      rewrite Hq; cbn [deref mbind option_bind]; fold vec; by rewrite Hz.
  - intros Hroom g Hg.
    assert (Hz : (len vec 0 =? 0) = false) by (apply Nat.eqb_neq; lia).
    split; intros; unfold push_command_event, push_control_event,
      command_event, control_event;
      rewrite Hq, Hg; cbn [deref mbind option_bind]; fold vec; rewrite Hz;
      destruct (createEvent g) as [evt g'] eqn:Hc; cbn [fst snd];
      eexists _, _; (split; [reflexivity |]);
      (split; [reflexivity |]);
      (split; [apply RingBufferFacts.pending_push; [done | lia] |]);
      (split; [reflexivity |]); (split; [reflexivity |]);
      (split; [apply RingBufferFacts.wf_push; [done | lia] | reflexivity]).
Qed.

(** [push_nonrt_event] has one result. *)
Lemma push_nonrt_event_result event e r :
  push_nonrt_event event e = Some r -> r.1 = true.
Proof.
  unfold push_nonrt_event.
  destruct (deref (_nonrt_event_queue e)) as [q|]; [|done].
  cbn [mbind option_bind].
  destruct (write1 event q). by intros [= <-].
Qed.

(** On a full administrative queue the event is not stored. *)
Lemma push_nonrt_event_full event e q :
  _nonrt_event_queue e = live q ->
  wf q ->
  write_space q = 0 ->
  push_nonrt_event event e
  = Some (true, signal_event_cond (set_nonrt_event_queue (live q) e)).
Proof.
  intros Hq Hwf Hfull.
  unfold push_nonrt_event. rewrite Hq. cbn [deref mbind option_bind].
  unfold write1.
  by rewrite (proj2 (Nat.eqb_eq _ _)
                (proj2 (RingBufferFacts.write_vector_full q Hwf) Hfull)).
Qed.

End PushClaims.

(** ** Claims about the instance registry *)

Section RegistryClaims.
Context {X : Externals}.
Implicit Types (e : Engine).

(** C7: [add_loop] builds the new instance with the registry size as
    its index.  When its setup fails, the result is false and the engine
    is as before: same registry, nothing emitted.  When it succeeds, the
    result is true, the instance is appended at that index, and
    [LoopAdded] with that index is emitted last. *)
Theorem add_loop_atomic chans e :
  (instances_size e <= Int.INT_MAX)%Z ->
  let instance := new_Looper (_driver e) (instances_size e) chans in
  ((looper_ok instance).1 = false -> add_loop chans e = (false, e)) /\
  ((looper_ok instance).1 = true ->
   exists e',
     add_loop chans e = (true, e') /\
     _instances e' = _instances e ++ [(looper_ok instance).2] /\
     _instances e' !! length (_instances e) = Some (looper_ok instance).2 /\
     emitted e' = emitted e ++ [LoopAdded (instances_size e)]).
Proof.
  intros Hsize instance.
  assert (Hidx : Int.to_uint32 (instances_size e) = instances_size e).
  { apply IntFacts.to_uint32_small. unfold Int.INT_MAX, instances_size in *. lia. }
  assert (Hn : Int.to_int32 (instances_size e) = instances_size e).
  { apply IntFacts.to_int32_small. unfold Int.INT_MAX, instances_size in *. lia. }
  unfold add_loop. rewrite Hidx, Hn. fold instance.
  destruct (looper_ok instance) as [ok instance'].
  split; intros Hok; simpl in Hok; subst ok; [done |].
  eexists. split; [reflexivity |]. simpl.
  split; [done |]. split; [|done].
  by rewrite lookup_app_r, Nat.sub_diag.
Qed.

(** C8: [remove_loop] with an index inside the registry returns true,
    erases the instance at that position only, and emits [LoopRemoved];
    with an index outside it returns false and changes nothing.  The
    worker turns the index -1 of a remove request into the registry size
    minus one, so that it removes the last instance. *)
Theorem remove_loop_bounds e :
  (forall index,
     (0 <= index < instances_size e)%Z ->
     exists e',
       remove_loop index e = (true, e') /\
       _instances e'
       = take (Z.to_nat index) (_instances e)
         ++ drop (S (Z.to_nat index)) (_instances e) /\
       emitted e' = emitted e ++ [LoopRemoved]) /\
  (forall index,
     (instances_size e <= index)%Z -> remove_loop index e = (false, e)) /\
  (forall channels,
     (0 < instances_size e <= 2 ^ 31)%Z ->
     exists e',
       handle_nonrt_event (ConfigLoopEvent Remove channels (-1)) e = Some e' /\
       remove_loop (instances_size e - 1) e = (true, e') /\
       _instances e' = take (length (_instances e) - 1) (_instances e)).
Proof.
  assert (Hin : forall index,
            (0 <= index < instances_size e)%Z ->
            remove_loop index e
            = (true, emit LoopRemoved
                       (set_instances
                          (delete (Z.to_nat index) (_instances e)) e))).
  { intros index Hi. unfold remove_loop.
    by rewrite (proj2 (Z.ltb_lt _ _)) by lia. }
  split; [|split].
  - intros index Hi. eexists. split; [by apply Hin |].
    simpl. by rewrite delete_take_drop.
  - intros index Hi. unfold remove_loop.
    by rewrite (proj2 (Z.ltb_ge _ _)) by lia.
  - intros channels Hsize.
    eexists. cbn [handle_nonrt_event].
    change (-1 =? -1)%Z with true. cbn match.
    rewrite IntFacts.to_int32_to_size_t.
    rewrite IntFacts.to_int32_small by lia.
    rewrite IntFacts.to_uint32_small by lia.
    rewrite Hin by lia.
    split; [reflexivity |]. split; [reflexivity |].
    simpl. rewrite delete_take_drop.
    unfold instances_size in *.
    replace (Z.to_nat (Z.of_nat (length (_instances e)) - 1))
      with (length (_instances e) - 1) by lia.
    rewrite (drop_ge (_instances e)) by lia.
    by rewrite app_nil_r.
Qed.

(** C9: [get_control_value] returns 0 for an instance number that is
    negative or not below the registry size, and the control value of the
    instance at that position otherwise. *)
Theorem get_control_value_bounds ctrl instance e :
  (-128 <= instance <= 127)%Z ->
  ((instance < 0 \/ instances_size e <= instance)%Z ->
   get_control_value ctrl instance e = Some (S754_zero false)) /\
  ((0 <= instance < instances_size e)%Z ->
   (instances_size e <= Int.INT_MAX)%Z ->
   exists l,
     _instances e !! Z.to_nat instance = Some l /\
     get_control_value ctrl instance e
     = Some (looper_get_control_value ctrl l)).
Proof.
  intros Hi8. unfold get_control_value. split.
  - intros Hout.
    assert ((0 <=? instance)%Z
            && (instance <? Int.to_int32 (instances_size e))%Z = false) as ->;
      [|done].
    apply andb_false_iff. rewrite Z.leb_gt, Z.ltb_ge.
    destruct Hout as [Hneg|Hbig]; [by left | right].
    rewrite IntFacts.to_int32_small; [done |].
    unfold instances_size in *. lia.
  - intros Hin Hsize.
    rewrite IntFacts.to_int32_small
      by (unfold Int.INT_MAX, instances_size in *; lia).
    rewrite (proj2 (Z.leb_le _ _)), (proj2 (Z.ltb_lt _ _)) by lia.
    destruct (lookup_lt_is_Some_2 (_instances e) (Z.to_nat instance))
      as [l Hl]; [unfold instances_size in *; lia |].
    exists l. by rewrite Hl.
Qed.

End RegistryClaims.

(** ** Claims about the life cycle *)

Section LifecycleClaims.
Context {X : Externals}.
Implicit Types (e : Engine).

(** [cleanup] on an engine whose front end is live deletes it and keeps
    its address; a second [cleanup] deletes through that address again. *)
Lemma cleanup_double_delete e osc :
  _osc e = live osc ->
  _event_queue e <> dangling ->
  _event_generator e <> dangling ->
  exists e1,
    cleanup e = Some e1 /\
    _ok e1 = false /\ _osc e1 = dangling /\
    _event_queue e1 = null /\ _event_generator e1 = null /\
    cleanup e1 = None.
Proof.
  intros Hosc Hq Hg. unfold cleanup. rewrite Hosc.
  destruct e as [ok drv o g q nq insts ch secs lock cond sigs].
  simpl in *. subst o.
  destruct q as [|q|], g as [|g|]; try done; simpl;
    eexists; (split; [reflexivity |]); done.
Qed.

(** Without a front end, a second [cleanup] changes nothing. *)
Lemma cleanup_idempotent_without_osc e :
  _osc e = null ->
  _event_queue e <> dangling ->
  _event_generator e <> dangling ->
  exists e1, cleanup e = Some e1 /\ cleanup e1 = Some e1.
Proof.
  intros Hosc Hq Hg. unfold cleanup. rewrite Hosc.
  destruct e as [ok drv o g q nq insts ch secs lock cond sigs].
  simpl in *. subst o.
  destruct q as [|q|], g as [|g|]; try done; simpl;
    eexists; (split; [reflexivity |]); done.
Qed.

End LifecycleClaims.

(** ** The engine on sample states *)

Module EngineExamples.
Import RingBuffer Recording Demo.

Local Existing Instance externals.

(** C10: on the engine that [initialize] has just set up, [cleanup]
    leaves the engine not ok, with the queue and the generator gone, but
    with [_osc] still holding the address of the deleted front end; a
    second [cleanup] deletes it again and has no defined result. *)
Theorem cleanup_twice_deletes_osc_twice :
  _ok initialized = true /\
  exists e1,
    cleanup initialized = Some e1 /\
    _ok e1 = false /\
    _osc e1 = dangling /\
    _event_queue e1 = null /\
    _event_generator e1 = null /\
    cleanup e1 = None.
Proof.
  split; [reflexivity |].
  apply (cleanup_double_delete initialized (mk_osc 9951 []));
    [reflexivity | discriminate | discriminate].
Qed.

(** The administrative queue after [MAX_EVENTS] pushes: no room left,
    [MAX_EVENTS] unread events, and cursors within their bounds. *)
Lemma flooded_shape :
  (fun e : Engine =>
     q ← deref (_nonrt_event_queue e);
     Some (write_space q, length (pending q),
           length (slots q) =? 0,
           read_ptr q <=? write_ptr q,
           write_ptr q <=? read_ptr q + length (slots q)))
    <$> flooded
  = Some (Some (0, MAX_EVENTS, false, true, true)).
Proof. vm_compute. reflexivity. Qed.

(** C5: after [MAX_EVENTS] administrative events have been pushed, the
    queue has no room; pushing one more returns true all the same, and
    the queue is exactly as before: the event is lost. *)
Theorem push_nonrt_event_full_returns_true :
  exists e q,
    flooded = Some e /\
    _nonrt_event_queue e = live q /\
    write_space q = 0 /\
    length (pending q) = MAX_EVENTS /\
    exists e',
      push_nonrt_event (PingEvent "late" "") e = Some (true, e') /\
      _nonrt_event_queue e' = live q.
Proof.
  generalize flooded_shape.
  destruct flooded as [e|]; [|discriminate].
  cbn [fmap option_fmap option_map].
  destruct (_nonrt_event_queue e) as [|q|] eqn:Hq; try discriminate.
  cbn [deref mbind option_bind].
  intros [= Hspace Hlen Hsz Hord Hbnd].
  assert (Hwf : wf q).
  { split; unfold size.
    - apply Nat.eqb_neq in Hsz. lia.
    - by apply Nat.leb_le.
    - by apply Nat.leb_le. }
  exists e, q. repeat split; try done.
  eexists. split; [by apply push_nonrt_event_full | reflexivity].
Qed.

Lemma push_event_full_or_stamped_witness :
  push_command_event 0 1 (-1) (engine_with q_full false)
  = Some (false, engine_with q_full false) /\
  exists e' q',
    push_control_event 1 2 (S754_zero false) 0 (engine_with q_fresh false)
    = Some (true, e') /\
    _event_queue e' = live q' /\
    pending q'
    = [ev 128 1; ev 200 0; mkEvent 1 0 2 (S754_zero false) 0 0] /\
    write_ptr q' = 3.
Proof.
  split.
  - apply (push_event_full_or_stamped (engine_with q_full false) q_full).
    + reflexivity.
    + split; vm_compute; lia.
    + reflexivity.
  - destruct (push_event_full_or_stamped (engine_with q_fresh false) q_fresh)
      as [_ Hroom].
    + reflexivity.
    + split; vm_compute; lia.
    + destruct (Hroom ltac:(vm_compute; lia) (mk_generator 44100 0 [])
                  ltac:(reflexivity)) as [_ Hctl].
      destruct (Hctl 1%Z 2%Z (S754_zero false) 0%Z)
        as (e' & q' & Hp & Hq & Hpend & Hw & _).
      exists e', q'. auto.
Defined.

Lemma add_loop_atomic_witness :
  add_loop 9 (engine_with q_fresh false) = (false, engine_with q_fresh false) /\
  exists e',
    add_loop 2 (engine_with q_fresh false) = (true, e') /\
    _instances e' = loopers ++ [mk_looper 3 2 []] /\
    emitted e' = [LoopAdded 3].
Proof.
  split.
  - apply (add_loop_atomic 9 (engine_with q_fresh false)).
    + vm_compute. discriminate.
    + reflexivity.
  - destruct (add_loop_atomic 2 (engine_with q_fresh false)) as [_ Hok].
    + vm_compute. discriminate.
    + destruct (Hok ltac:(reflexivity)) as (e' & Ha & Hi & _ & He).
      exists e'. auto.
Defined.

Lemma remove_loop_bounds_witness :
  (exists e',
     remove_loop 1 (engine_with q_fresh false) = (true, e') /\
     _instances e' = [mk_looper 0 2 []; mk_looper 2 1 []]) /\
  remove_loop 3 (engine_with q_fresh false)
  = (false, engine_with q_fresh false) /\
  (exists e',
     handle_nonrt_event (ConfigLoopEvent Remove 0 (-1))
       (engine_with q_fresh false) = Some e' /\
     _instances e' = [mk_looper 0 2 []; mk_looper 1 2 []]).
Proof.
  pose proof (remove_loop_bounds (engine_with q_fresh false))
    as (Hin & Hout & Hlast).
  split; [|split].
  - destruct (Hin 1%Z ltac:(vm_compute; split; [discriminate | reflexivity]))
      as (e' & Hr & Hi & _).
    exists e'. auto.
  - apply Hout. vm_compute. discriminate.
  - destruct (Hlast 0%Z ltac:(vm_compute; split; [reflexivity | discriminate]))
      as (e' & Hh & _ & Hi).
    exists e'. auto.
Defined.

Lemma get_control_value_bounds_witness :
  get_control_value 7 5 (engine_with q_fresh false) = Some (S754_zero false) /\
  get_control_value 7 (-3) (engine_with q_fresh false) = Some (S754_zero false) /\
  get_control_value 7 1 (engine_with q_fresh false)
  = Some (S754_finite false 1 0).
Proof.
  split; [|split].
  - apply (get_control_value_bounds 7 5 (engine_with q_fresh false));
      [lia | right; vm_compute; discriminate].
  - apply (get_control_value_bounds 7 (-3) (engine_with q_fresh false));
      [lia | left; lia].
  - destruct (get_control_value_bounds 7 1 (engine_with q_fresh false)
                ltac:(lia)) as [_ Hin].
    destruct (Hin ltac:(vm_compute; split; [discriminate | reflexivity])
                  ltac:(vm_compute; discriminate))
      as (l & Hl & Hg).
    injection Hl as <-. exact Hg.
Defined.

(** The worker handles a request to add a loop with two channels, then a
    request to remove the last loop. *)
Example worker_add_then_remove :
  (e ← (push_nonrt_event (ConfigLoopEvent Add 2 0) initialized);
   e ← drain_nonrt_events 3 e.2;
   r ← push_nonrt_event (ConfigLoopEvent Remove 0 (-1)) e;
   e' ← drain_nonrt_events 3 r.2;
   Some (_instances e, emitted e, _instances e', emitted e'))
  = Some ([mk_looper 0 2 []], [LoopAdded 0],
          [], [LoopAdded 0; LoopRemoved]).
Proof. vm_compute. reflexivity. Qed.

(** A request to add a loop with zero channels creates it with the
    default channel count. *)
Example worker_add_default_channels :
  (fun e => _instances e)
    <$> handle_nonrt_event (ConfigLoopEvent Add 0 0) initialized
  = Some [mk_looper 0 2 []].
Proof. vm_compute. reflexivity. Qed.

(** Removing the last loop of an empty registry does nothing. *)
Example worker_remove_from_empty :
  (fun e => (_instances e, emitted e))
    <$> handle_nonrt_event (ConfigLoopEvent Remove 0 (-1)) initialized
  = Some ([], []).
Proof. vm_compute. reflexivity. Qed.

End EngineExamples.

(** ** More about the real-time callback *)

Section MoreProcess.
Context {X : Externals}.
Import RingBuffer.
Implicit Types (e : Engine) (q : RingBuffer.t Event).

Lemma set_event_queue_same e q :
  _event_queue e = live q -> set_event_queue (live q) e = e.
Proof. destruct e. simpl. by intros ->. Qed.

(** The callback with the lock, whatever the frame count. *)
Lemma process_unlocked_shape nframes e q g :
  _instance_lock e = false ->
  _event_queue e = live q ->
  _event_generator e = live g ->
  wf q ->
  exists insts' q',
    process nframes e
    = Some (set_instances insts'
              (set_event_queue (live q')
                 (set_event_generator (live (updateFragmentTime nframes g)) e))) /\
    length insts' = length (_instances e) /\
    wf q' /\ pending q' = [] /\
    write_ptr q' = write_ptr q /\ slots q' = slots q.
Proof.
  intros Hlock Hq Hg Hwf.
  unfold process. rewrite Hlock, Hq, Hg. cbn [deref mbind option_bind negb].
  destruct (Nat.ltb_spec 0 (len (get_read_vector q) 0)) as [Hpos|Hzero].
  - rewrite event_loop_pending by done.
    cbn [mbind option_bind _instances set_event_generator].
    pose proof (dispatch_all_length nframes (pending q) (0%Z, _instances e))
      as Hlen.
    destruct (dispatch_all nframes (pending q) (0%Z, _instances e))
      as [used insts].
    destruct (wf_read_all q Hwf) as [Hwf' Hnil].
    eexists _, _. split; [reflexivity |].
    rewrite length_fmap. simpl in Hlen.
    split; [done |]. split; [exact Hwf' |]. split; [exact Hnil |]. by split.
  - assert (Hnil : pending q = []).
    { apply RingBufferFacts.read_vector_empty; [done | lia]. }
    exists (looper_run 0%Z nframes <$> _instances e), q.
    rewrite set_event_queue_same by done.
    rewrite length_fmap.
    split; [done |]. split; [done |]. split; [exact Hwf |]. by split.
Qed.

(** The callback with the lock and nothing to read. *)
Lemma process_unlocked_empty nframes e q g :
  _instance_lock e = false ->
  _event_queue e = live q ->
  _event_generator e = live g ->
  wf q ->
  pending q = [] ->
  process nframes e
  = Some (set_instances (looper_run 0%Z nframes <$> _instances e)
            (set_event_generator (live (updateFragmentTime nframes g)) e)).
Proof.
  intros Hlock Hq Hg Hwf Hnil.
  unfold process. rewrite Hlock, Hq, Hg. cbn [deref mbind option_bind negb].
  apply RingBufferFacts.read_vector_empty in Hnil; [|done].
  by rewrite Hnil.
Qed.


(** X4: the callback that gets the lock consumes every unread event,
    dispatched or skipped: the queue is empty afterwards, and the next
    callback runs every instance once over its whole buffer and nothing
    else. *)
Theorem process_consumes_queue n1 n2 e q g :
  _instance_lock e = false ->
  _event_queue e = live q ->
  _event_generator e = live g ->
  wf q ->
  exists e1 e2 q',
    process n1 e = Some e1 /\
    _event_queue e1 = live q' /\ pending q' = [] /\
    read_ptr q' = write_ptr q /\
    process n2 e1 = Some e2 /\
    _instances e2 = looper_run 0%Z n2 <$> _instances e1 /\
    _event_queue e2 = live q'.
Proof.
  intros Hlock Hq Hg Hwf.
  destruct (process_unlocked_shape n1 e q g)
    as (insts' & q' & Hp & Hlen & Hwf' & Hnil & Hw & Hs); try done.
  eexists _, _, q'. split; [exact Hp |].
  split; [reflexivity |]. split; [done |].
  split.
  { pose proof (RingBufferFacts.pending_length q' Hwf') as Hl.
    rewrite Hnil in Hl. unfold read_space in Hl. simpl in Hl.
    destruct Hwf' as [_ Hord _]. lia. }
  split; [by eapply process_unlocked_empty |].
  by split.
Qed.

(** X5: a callback that finds the lock busy loses no event: once the
    lock is free again, the next callback dispatches the events that were
    unread, in order, as if the busy one had not happened. *)
Theorem process_after_contention n1 n2 e q g :
  _instance_lock e = true ->
  _event_queue e = live q ->
  _event_generator e = live g ->
  wf q ->
  (0 <= n2 < 2 ^ 32)%Z ->
  exists e1 e2,
    process n1 e = Some e1 /\
    process n2 (set_instance_lock false e1) = Some e2 /\
    _instances e2 = rendered n2 (pending q) (_instances e).
Proof.
  intros Hlock Hq Hg Hwf Hn.
  eexists. 
  destruct (process_unlocked n2
              (set_instance_lock false
                 (set_event_generator (live (updateFragmentTime n1 g)) e))
              q (updateFragmentTime n1 g))
    as (e2 & _ & Hp & Hi & _); try done.
  exists e2. split; [by apply (process_locked n1 e q g) |]. by split.
Qed.

(** X8: the callback does not look at [_ok]: after [quit] it dispatches
    events and runs the instances exactly as before. *)
Theorem process_ignores_quit nframes e :
  process nframes (quit e) = quit <$> process nframes e.
Proof.
  unfold process, quit.
  destruct e as [ok drv o g q nq insts ch secs lock cond sigs].
  cbn [_event_queue _event_generator _instance_lock _instances
       set_ok signal_event_cond].
  destruct q as [|q|]; try done.
  destruct g as [|g|]; try done.
  cbn [deref mbind option_bind].
  destruct lock; [done |].
  cbn [negb].
  destruct (0 <? len (get_read_vector q) 0); [|done].
  destruct (event_loop _ _ _ _ _ _ _ _) as [[used insts']|]; done.
Qed.

End MoreProcess.

(** ** More about pushing events *)

Section MorePush.
Context {X : Externals}.
Import RingBuffer.
Implicit Types (e : Engine) (q : RingBuffer.t Event).

(** The queue after an event has been stored in its first free slot. *)
Lemma write_space_push q x :
  wf q -> 0 < write_space q ->
  write_space (increment_write_ptr 1 (store (buf (get_write_vector q) 0) x q))
  = write_space q - 1.
Proof.
  intros [HC Hord Hbnd] Hfree.
  unfold write_space, read_space, size in *. simpl.
  rewrite length_insert. lia.
Qed.

Lemma push_command_event_full e q type cmd instance :
  _event_queue e = live q -> wf q -> write_space q = 0 ->
  push_command_event type cmd instance e = Some (false, e).
Proof.
  intros Hq Hwf Hfull. unfold push_command_event.
  rewrite Hq. cbn [deref mbind option_bind].
  by rewrite (proj2 (Nat.eqb_eq _ _)
                (proj2 (RingBufferFacts.write_vector_full q Hwf) Hfull)).
Qed.

Lemma push_command_event_room e q g type cmd instance :
  _event_queue e = live q -> _event_generator e = live g ->
  wf q -> 0 < write_space q ->
  push_command_event type cmd instance e
  = Some (true,
          set_event_queue
            (live (increment_write_ptr 1
                     (store (buf (get_write_vector q) 0)
                        (command_event g type cmd instance) q)))
            (set_event_generator (live (createEvent g).2) e)).
Proof.
  intros Hq Hg Hwf Hroom. unfold push_command_event, command_event.
  rewrite Hq, Hg. cbn [deref mbind option_bind].
  assert ((len (get_write_vector q) 0 =? 0) = false) as ->.
  { apply Nat.eqb_neq. rewrite RingBufferFacts.write_vector_full by done. lia. }
  by destruct (createEvent g).
Qed.



(** X7: of a sequence of pushes, the first ones succeed until the free
    capacity of the queue is used up, and all later ones fail.  The queue
    then holds the former unread events followed by one event per
    successful push, in call order, with the type, command and instance of
    the call. *)
Theorem push_until_full cmds :
  forall e q g,
    _event_queue e = live q ->
    _event_generator e = live g ->
    wf q ->
    exists e' q' new,
      push_command_events cmds e
      = Some (replicate (length cmds `min` write_space q) true
                ++ replicate (length cmds - write_space q) false, e') /\
      _event_queue e' = live q' /\ wf q' /\
      write_space q' = write_space q - length cmds /\
      pending q' = pending q ++ new /\
      (fun evt => (Type_ evt, Command evt, Instance_ evt)) <$> new
      = take (write_space q) cmds /\
      _instances e' = _instances e.
Proof.
  induction cmds as [|[[type cmd] instance] rest IH]; intros e q g Hq Hg Hwf.
  - exists e, q, []. simpl. rewrite app_nil_r, take_nil.
    split; [done |]. split; [done |]. split; [done |].
    split; [lia | done].
  - cbn [push_command_events].
    destruct (write_space q) as [|k] eqn:Hk.
    + rewrite (push_command_event_full e q) by done.
      cbn [mbind option_bind fst snd].
      destruct (IH e q g Hq Hg Hwf)
        as (e' & q' & new & Hp & Hq' & Hwf' & Hs & Hpend & Hnew & Hi).
      rewrite Hp, Hk in *. cbn [mbind option_bind fst snd].
      rewrite Nat.min_0_r, Nat.sub_0_r in *. simpl in *.
      exists e', q', new.
      split; [done |]. split; [done |]. split; [done |]. by split.
    + rewrite (push_command_event_room e q g) by (done || lia).
      cbn [mbind option_bind fst snd].
      set (evt := command_event g type cmd instance).
      set (q1 := increment_write_ptr 1 _).
      set (e1 := set_event_queue (live q1) _).
      assert (Hwf1 : wf q1) by (apply RingBufferFacts.wf_push; [done | lia]).
      destruct (IH e1 q1 (createEvent g).2 eq_refl eq_refl Hwf1)
        as (e' & q' & new & Hp & Hq' & Hwf' & Hs & Hpend & Hnew & Hi).
      rewrite Hp. cbn [mbind option_bind fst snd].
      assert (Hs1 : write_space q1 = k).
      { unfold q1. rewrite write_space_push by (done || lia). lia. }
      rewrite Hs1 in *.
      exists e', q', (evt :: new).
      split; [simpl length; by rewrite <- Nat.succ_min_distr |].
      split; [done |]. split; [done |]. split; [simpl; lia |].
      split.
      { rewrite Hpend. unfold q1.
        rewrite RingBufferFacts.pending_push by (done || lia).
        by rewrite <- app_assoc. }
      split; [|done].
      rewrite fmap_cons, Hnew. done.
Qed.

End MorePush.

(** ** The worker *)

Section Worker.
Context {X : Externals}.
Import RingBuffer.
Implicit Types (e : Engine) (q : RingBuffer.t EventNonRT).

(** The oldest unread element is in the slot the read vector starts at,
    and moving the read cursor by one leaves the others unread. *)
Lemma pending_pop {T} (q : RingBuffer.t T) :
  wf q -> 0 < read_space q ->
  exists x,
    slots q !! buf (get_read_vector q) 0 = Some x /\
    pending q = x :: pending (increment_read_ptr 1 q) /\
    wf (increment_read_ptr 1 q).
Proof.
  intros Hwf Hpos.
  pose proof Hwf as [HC Hord Hbnd].
  set (q1 := increment_read_ptr 1 q).
  assert (Hwf1 : wf q1).
  { unfold read_space in Hpos. split; unfold q1, size in *; simpl; lia. }
  assert (Hb : buf (get_read_vector q) 0 = read_ptr q mod size q).
  { apply RingBufferFacts.region_bounds; [done |].
    by apply RingBufferFacts.read_space_le. }
  destruct (lookup_lt_is_Some_2 (slots q) (read_ptr q mod size q)) as [x Hx].
  { apply Nat.mod_upper_bound. unfold size in HC. lia. }
  exists x. rewrite Hb. split; [done |]. split; [|done].
  apply list_eq. intros [|k].
  - rewrite RingBufferFacts.pending_lookup by done.
    by rewrite Nat.add_0_r.
  - simpl.
    destruct (Nat.lt_ge_cases k (read_space q1)) as [Hk|Hk].
    + rewrite !RingBufferFacts.pending_lookup
        by (done || unfold q1, read_space in *; simpl in *; lia).
      unfold q1, size. simpl. f_equal. f_equal. lia.
    + rewrite !lookup_ge_None_2; [done | |].
      * by rewrite RingBufferFacts.pending_length.
      * rewrite RingBufferFacts.pending_length by done.
        unfold q1, read_space in *. simpl in *. lia.
Qed.

(** [get_control_value] never reads outside the registry. *)
Lemma get_control_value_defined ctrl instance e :
  exists v, get_control_value ctrl instance e = Some v.
Proof.
  unfold get_control_value.
  destruct (_ && _) eqn:Hguard; [|by eexists].
  apply andb_true_iff in Hguard as [Hlo Hhi].
  apply Z.leb_le in Hlo. apply Z.ltb_lt in Hhi.
  destruct (lookup_lt_is_Some_2 (_instances e) (Z.to_nat instance)) as [l Hl].
  { unfold Int.to_int32, instances_size in Hhi.
    change (2 ^ 32)%Z with 4294967296%Z in Hhi.
    change (2 ^ 31)%Z with 2147483648%Z in Hhi.
    assert (Z.to_nat instance < length (_instances e))%nat; [|done].
    apply Nat2Z.inj_lt. rewrite Z2Nat.id by done.
    pose proof (Nat2Z.is_nonneg (length (_instances e))) as Hnn.
    revert Hhi Hnn. generalize (Z.of_nat (length (_instances e))).
    intros z Hhi Hnn.
    Z.div_mod_to_equations. lia. }
  rewrite Hl. by eexists.
Qed.

(** The guard of [get_control_value] holds only inside the registry. *)
Lemma get_control_value_guard instance e :
  (0 <=? instance)%Z && (instance <? Int.to_int32 (instances_size e))%Z = true ->
  (0 <= instance < instances_size e)%Z.
Proof.
  intros Hguard.
  apply andb_true_iff in Hguard as [Hlo Hhi].
  apply Z.leb_le in Hlo. apply Z.ltb_lt in Hhi.
  split; [done |].
  unfold Int.to_int32, instances_size in *.
  change (2 ^ 32)%Z with 4294967296%Z in Hhi.
  change (2 ^ 31)%Z with 2147483648%Z in Hhi.
  pose proof (Nat2Z.is_nonneg (length (_instances e))) as Hnn.
  revert Hhi Hnn. generalize (Z.of_nat (length (_instances e))).
  intros z Hhi Hnn.
  Z.div_mod_to_equations. lia.
Qed.


(** What the reaction to an event leaves alone. *)
Lemma handle_nonrt_event_frame event e e' :
  handle_nonrt_event event e = Some e' ->
  _ok e' = _ok e /\
  _nonrt_event_queue e' = _nonrt_event_queue e /\
  _event_queue e' = _event_queue e /\
  _event_generator e' = _event_generator e /\
  _event_cond e' = _event_cond e.
Proof.
  destruct event as [c i r|cu|[] ch idx|u p|rc]; cbn [handle_nonrt_event].
  - destruct (get_control_value c i e); [|done]. cbn [mbind option_bind].
    destruct (deref (_osc e)); [|done]. by intros [= <-].
  - destruct (deref (_osc e)); [|done]. by intros [= <-].
  - intros [= <-]. unfold add_loop.
    destruct (looper_ok _) as [[] ?]; done.
  - intros [= <-]. unfold remove_loop. by destruct (_ <? _)%Z.
  - destruct (deref (_osc e)); [|done]. by intros [= <-].
  - destruct (deref (_osc e)); [|done]. by intros [= <-].
Qed.

(** The reaction to an event does not depend on the administrative
    queue. *)
Lemma handle_nonrt_event_queue event nq e :
  handle_nonrt_event event (set_nonrt_event_queue nq e)
  = set_nonrt_event_queue nq <$> handle_nonrt_event event e.
Proof.
  destruct event as [c i r|cu|[] ch idx|u p|rc]; cbn [handle_nonrt_event].
  - change (get_control_value c i (set_nonrt_event_queue nq e))
      with (get_control_value c i e).
    destruct (get_control_value c i e); [|done]. cbn [mbind option_bind].
    change (_osc (set_nonrt_event_queue nq e)) with (_osc e).
    by destruct (deref (_osc e)).
  - change (_osc (set_nonrt_event_queue nq e)) with (_osc e).
    by destruct (deref (_osc e)).
  - cbn [fmap option_fmap option_map]. f_equal.
    unfold add_loop.
    change (_driver (set_nonrt_event_queue nq e)) with (_driver e).
    change (instances_size (set_nonrt_event_queue nq e))
      with (instances_size e).
    change (_def_channel_cnt (set_nonrt_event_queue nq e))
      with (_def_channel_cnt e).
    by destruct (looper_ok _) as [[] ?].
  - cbn [fmap option_fmap option_map]. f_equal.
    unfold remove_loop.
    change (instances_size (set_nonrt_event_queue nq e))
      with (instances_size e).
    by destruct (_ <? _)%Z.
  - change (_osc (set_nonrt_event_queue nq e)) with (_osc e).
    by destruct (deref (_osc e)).
  - change (_osc (set_nonrt_event_queue nq e)) with (_osc e).
    by destruct (deref (_osc e)).
Qed.

Lemma handle_nonrt_events_queue events :
  forall nq e,
    handle_nonrt_events events (set_nonrt_event_queue nq e)
    = set_nonrt_event_queue nq <$> handle_nonrt_events events e.
Proof.
  induction events as [|event rest IH]; intros nq e; [done |].
  cbn [handle_nonrt_events].
  rewrite handle_nonrt_event_queue.
  destruct (handle_nonrt_event event e) as [e1|]; [|done].
  cbn [fmap option_fmap option_map mbind option_bind]. apply IH.
Qed.

Lemma handle_nonrt_events_frame events :
  forall e e',
    handle_nonrt_events events e = Some e' ->
    _ok e' = _ok e /\
    _nonrt_event_queue e' = _nonrt_event_queue e /\
    _event_queue e' = _event_queue e /\
    _event_generator e' = _event_generator e /\
    _event_cond e' = _event_cond e.
Proof.
  induction events as [|event rest IH]; intros e e'; cbn [handle_nonrt_events].
  - by intros [= <-].
  - destruct (handle_nonrt_event event e) as [e1|] eqn:H1; [|done].
    cbn [mbind option_bind]. intros H2.
    apply handle_nonrt_event_frame in H1 as (<- & <- & <- & <- & <-).
    by apply IH.
Qed.

(** The inner loop of the worker, given enough tests of its condition,
    reacts to the unread events in queue order, the read cursor being
    moved past all of them. *)
Lemma drain_nonrt_events_pending n :
  forall fuel e q,
    _ok e = true ->
    _nonrt_event_queue e = live q ->
    wf q ->
    length (pending q) = n ->
    n < fuel ->
    drain_nonrt_events fuel e
    = handle_nonrt_events (pending q)
        (set_nonrt_event_queue (live (increment_read_ptr n q)) e).
Proof.
  induction n as [|n IH]; intros [|fuel] e q Hok Hq Hwf Hlen Hfuel; try lia;
    cbn [drain_nonrt_events]; rewrite Hok, Hq; cbn [deref mbind option_bind];
    unfold read1.
  - apply nil_length_inv in Hlen.
    rewrite (proj2 (RingBufferFacts.read_vector_empty q Hwf) Hlen), Hlen.
    simpl. do 2 f_equal. destruct q as [sl w r]. unfold increment_read_ptr.
    simpl. by rewrite Nat.add_0_r.
  - assert (Hpos : 0 < read_space q).
    { rewrite <- RingBufferFacts.pending_length by done. lia. }
    destruct (pending_pop q Hwf Hpos) as (x & Hx & Hpend & Hwf1).
    assert ((len (get_read_vector q) 0 =? 0) = false) as ->.
    { apply Nat.eqb_neq. intros Hz.
      apply RingBufferFacts.read_vector_empty in Hz; [|done].
      rewrite Hz in Hlen. done. }
    rewrite Hx, Hpend. cbn [Nat.eqb mbind option_bind handle_nonrt_events].
    rewrite !handle_nonrt_event_queue.
    destruct (handle_nonrt_event x e) as [e1|] eqn:H1; [|done].
    cbn [fmap option_fmap option_map mbind option_bind].
    apply handle_nonrt_event_frame in H1 as (Hok1 & _).
    rewrite (IH fuel (set_nonrt_event_queue (live (increment_read_ptr 1 q)) e1)
               (increment_read_ptr 1 q)); try done; try lia.
    + f_equal. unfold set_nonrt_event_queue, increment_read_ptr. simpl.
      do 3 f_equal. lia.
    + change (_ok e1 = true). by rewrite Hok1.
    + rewrite Hpend in Hlen. simpl in Hlen. lia.
Qed.

Lemma wf_read_space {T} (q : RingBuffer.t T) :
  wf q ->
  let q' := increment_read_ptr (length (pending q)) q in
  wf q' /\ pending q' = [] /\ write_ptr q' = write_ptr q.
Proof.
  intros Hwf q'.
  pose proof Hwf as [HC Hord Hbnd].
  assert (Hwf' : wf q').
  { unfold q'. rewrite RingBufferFacts.pending_length by done.
    unfold read_space. split; unfold size in *; simpl; lia. }
  split; [done |]. split; [|done].
  apply nil_length_inv. rewrite RingBufferFacts.pending_length by done.
  unfold q'. rewrite RingBufferFacts.pending_length by done.
  unfold read_space. simpl. lia.
Qed.

(** X9: while the engine is ok, the inner loop of the worker reacts to
    every unread administrative event, oldest first, and stops within
    one more test than there are events.  If no reaction goes wrong, it
    leaves the queue empty, the write cursor where it was, and the engine
    ok. *)
Theorem drain_handles_in_order fuel e q :
  _ok e = true ->
  _nonrt_event_queue e = live q ->
  wf q ->
  length (pending q) < fuel ->
  drain_nonrt_events fuel e
  = handle_nonrt_events (pending q)
      (set_nonrt_event_queue
         (live (increment_read_ptr (length (pending q)) q)) e) /\
  forall e',
    drain_nonrt_events fuel e = Some e' ->
    exists q',
      _nonrt_event_queue e' = live q' /\ pending q' = [] /\ wf q' /\
      write_ptr q' = write_ptr q /\ _ok e' = true.
Proof.
  intros Hok Hq Hwf Hfuel.
  pose proof (drain_nonrt_events_pending (length (pending q)) fuel e q
                Hok Hq Hwf eq_refl Hfuel) as Hdrain.
  split; [done |].
  intros e' He'. rewrite Hdrain in He'.
  apply handle_nonrt_events_frame in He' as (Hok' & Hnq' & _).
  destruct (wf_read_space q Hwf) as (Hwf' & Hnil & Hw).
  eexists. split; [exact Hnq' |].
  split; [done |]. split; [done |]. split; [done |].
  by rewrite Hok'.
Qed.

(** X10: after [quit] the inner loop of the worker reads nothing: the
    unread administrative events stay in the queue, whatever they are. *)
Theorem quit_stops_worker fuel e :
  0 < fuel ->
  drain_nonrt_events fuel (quit e) = Some (quit e) /\
  _nonrt_event_queue (quit e) = _nonrt_event_queue e /\
  _instances (quit e) = _instances e /\
  _event_cond (quit e) = S (_event_cond e).
Proof. intros Hfuel. destruct fuel; [lia |]. done. Qed.

(** X11: [push_nonrt_event] on a queue with room puts the event behind
    the unread ones and signals the condition once; it touches neither the
    registry nor [_ok]. *)
Theorem push_nonrt_event_queued event e q :
  _nonrt_event_queue e = live q ->
  wf q ->
  0 < write_space q ->
  exists e' q',
    push_nonrt_event event e = Some (true, e') /\
    _nonrt_event_queue e' = live q' /\ wf q' /\
    pending q' = pending q ++ [event] /\
    _event_cond e' = S (_event_cond e) /\
    _instances e' = _instances e /\ _ok e' = _ok e.
Proof.
  intros Hq Hwf Hroom.
  unfold push_nonrt_event. rewrite Hq. cbn [deref mbind option_bind].
  unfold write1.
  assert ((len (get_write_vector q) 0 =? 0) = false) as ->.
  { apply Nat.eqb_neq. rewrite RingBufferFacts.write_vector_full by done. lia. }
  eexists _, _. split; [reflexivity |]. split; [reflexivity |].
  split; [by apply RingBufferFacts.wf_push |].
  split; [by apply RingBufferFacts.pending_push |]. done.
Qed.

(** X13: a remove request whose index is below -1, or not below the
    registry size, or -1 with an empty registry, changes nothing: no
    instance is removed and nothing is emitted. *)
Theorem remove_request_out_of_range channels index e :
  (instances_size e <= 2 ^ 31)%Z ->
  (- 2 ^ 31 <= index < 2 ^ 31)%Z ->
  (index < -1 \/ instances_size e <= index \/
   (index = -1 /\ instances_size e = 0))%Z ->
  handle_nonrt_event (ConfigLoopEvent Remove channels index) e = Some e.
Proof.
  intros Hsize Hint Hout.
  cbn [handle_nonrt_event]. f_equal.
  assert (Hnn : (0 <= instances_size e)%Z)
    by (unfold instances_size; lia).
  destruct (Z.eqb_spec index (-1)) as [->|Hne].
  - assert (Hempty : instances_size e = 0%Z) by lia.
    rewrite Hempty. unfold remove_loop. rewrite Hempty. done.
  - unfold remove_loop.
    assert ((Int.to_uint32 index <? instances_size e)%Z = false) as ->; [|done].
    apply Z.ltb_ge. unfold Int.to_uint32.
    change (2 ^ 32)%Z with 4294967296%Z.
    change (2 ^ 31)%Z with 2147483648%Z in *.
    Z.div_mod_to_equations. lia.
Qed.

(** X14: every administrative event other than a loop request makes
    exactly one call on the control front end and changes nothing else in
    the engine; a parameter query for an instance outside the registry is
    answered with 0.  With no live front end these events have no defined
    reaction, whereas loop requests do not use the front end at all. *)
Theorem front_end_events event e :
  (is_config_loop event = false ->
   forall osc, _osc e = live osc ->
   exists call,
     handle_nonrt_event event e = Some (set_osc (live (osc_call call osc)) e) /\
     forall control instance ret,
       event = GetParamEvent control instance ret ->
       (instance < 0 \/ instances_size e <= instance)%Z ->
       call = finish_get_event control instance (S754_zero false)) /\
  (is_config_loop event = false ->
   deref (_osc e) = None -> handle_nonrt_event event e = None) /\
  (is_config_loop event = true ->
   exists e', handle_nonrt_event event e = Some e' /\ _osc e' = _osc e).
Proof.
  split; [|split].
  - intros Hev osc Hosc.
    destruct event as [c i r|cu|[] ch idx|u p|rc]; try done;
      cbn [handle_nonrt_event]; rewrite Hosc; cbn [deref mbind option_bind].
    + destruct (get_control_value_defined c i e) as [v Hv].
      rewrite Hv. cbn [mbind option_bind].
      eexists. split; [reflexivity |].
      intros control instance ret [= -> -> ->] Hout.
      unfold get_control_value in Hv.
      destruct (_ && _) eqn:Hguard.
      * apply get_control_value_guard in Hguard. lia.
      * by injection Hv as <-.
    + eexists. split; [reflexivity | done].
    + eexists. split; [reflexivity | done].
    + eexists. split; [reflexivity | done].
  - intros Hev Hosc.
    destruct event as [c i r|cu|[] ch idx|u p|rc]; try done;
      cbn [handle_nonrt_event]; rewrite ?Hosc; try done.
    by destruct (get_control_value c i e).
  - intros Hev.
    destruct event as [c i r|cu|[] ch idx|u p|rc]; try done;
      cbn [handle_nonrt_event]; eexists; (split; [reflexivity |]).
    + unfold add_loop. by destruct (looper_ok _) as [[] ?].
    + unfold remove_loop. by destruct (_ <? _)%Z.
Qed.

End Worker.

(** ** More about the registry *)

Section MoreRegistry.
Context {X : Externals}.
Implicit Types (e : Engine).

Lemma add_loop_ok chans e instance :
  (instances_size e <= Int.INT_MAX)%Z ->
  looper_ok (new_Looper (_driver e) (instances_size e) chans) = (true, instance) ->
  add_loop chans e
  = (true, emit (LoopAdded (instances_size e))
             (set_instances (_instances e ++ [instance]) e)).
Proof.
  intros Hsize Hok. unfold add_loop.
  rewrite IntFacts.to_uint32_small, IntFacts.to_int32_small
    by (unfold Int.INT_MAX, instances_size in *; lia).
  by rewrite Hok.
Qed.

Lemma remove_loop_in index e :
  (0 <= index < instances_size e)%Z ->
  remove_loop index e
  = (true, emit LoopRemoved
             (set_instances (delete (Z.to_nat index) (_instances e)) e)).
Proof.
  intros Hi. unfold remove_loop. by rewrite (proj2 (Z.ltb_lt _ _)) by lia.
Qed.

(** X15: adding a loop and then removing the last one gives the registry
    back as it was, with [LoopAdded] and [LoopRemoved] emitted in that
    order, both through [add_loop] and [remove_loop] and through the
    worker's add request and remove request with index -1. *)
Theorem add_then_remove_last chans e instance :
  (instances_size e <= Int.INT_MAX)%Z ->
  looper_ok (new_Looper (_driver e) (instances_size e) chans) = (true, instance) ->
  exists e1 e2,
    add_loop chans e = (true, e1) /\
    _instances e1 = _instances e ++ [instance] /\
    remove_loop (instances_size e) e1 = (true, e2) /\
    (forall channels,
       handle_nonrt_event (ConfigLoopEvent Remove channels (-1)) e1 = Some e2) /\
    _instances e2 = _instances e /\
    emitted e2 = emitted e ++ [LoopAdded (instances_size e); LoopRemoved].
Proof.
  intros Hsize Hok.
  eexists _, _. split; [by apply add_loop_ok |].
  split; [reflexivity |].
  set (e1 := emit _ _).
  assert (Hsize1 : instances_size e1 = (instances_size e + 1)%Z).
  { unfold e1, instances_size. simpl. rewrite length_app. simpl. lia. }
  assert (Hnn : (0 <= instances_size e)%Z) by (unfold instances_size; lia).
  split; [apply remove_loop_in; lia |].
  split.
  { intros channels. cbn [handle_nonrt_event]. f_equal.
    change (-1 =? -1)%Z with true. cbn match.
    rewrite IntFacts.to_int32_to_size_t, Hsize1.
    unfold Int.INT_MAX in Hsize.
    rewrite IntFacts.to_int32_small, IntFacts.to_uint32_small by lia.
    replace (instances_size e + 1 - 1)%Z with (instances_size e) by lia.
    by rewrite remove_loop_in by lia. }
  simpl. unfold instances_size. rewrite Nat2Z.id.
  rewrite delete_middle, app_nil_r, <- app_assoc. done.
Qed.

(** X16: removing the instance at [index] shifts the positions behind
    it: instance numbers below [index] read the same control values as
    before, and every instance number from [index] on reads what the next
    number read before. *)
Theorem remove_loop_shifts ctrl index e :
  (instances_size e <= Int.INT_MAX)%Z ->
  (0 <= index < instances_size e)%Z ->
  exists e',
    remove_loop index e = (true, e') /\
    instances_size e' = (instances_size e - 1)%Z /\
    (forall j, (j < index)%Z ->
       get_control_value ctrl j e' = get_control_value ctrl j e) /\
    (forall j, (index <= j)%Z ->
       get_control_value ctrl j e' = get_control_value ctrl (j + 1) e).
Proof.
  intros Hsize Hi.
  eexists. split; [by apply remove_loop_in |].
  set (e' := emit _ _).
  assert (Hsize' : instances_size e' = (instances_size e - 1)%Z).
  { unfold e', instances_size in *. simpl.
    rewrite length_delete by (apply lookup_lt_is_Some_2; lia). lia. }
  split; [done |].
  unfold Int.INT_MAX in Hsize.
  assert (Hnn : (0 <= instances_size e)%Z) by (unfold instances_size; lia).
  split; intros j Hj; unfold get_control_value; rewrite Hsize';
    rewrite !IntFacts.to_int32_small by lia.
  - destruct (Z.leb_spec 0 j) as [Hj0|]; [|done]. cbn [andb].
    rewrite !(proj2 (Z.ltb_lt _ _)) by lia.
    change (_instances e') with (delete (Z.to_nat index) (_instances e)).
    by rewrite list_lookup_delete_lt by lia.
  - rewrite !(proj2 (Z.leb_le 0 _)) by lia. cbn [andb].
    destruct (Z.ltb_spec j (instances_size e - 1)) as [Hlt|Hge].
    + rewrite (proj2 (Z.ltb_lt _ _)) by lia.
      change (_instances e') with (delete (Z.to_nat index) (_instances e)).
      rewrite list_lookup_delete_ge by lia.
      by replace (Z.to_nat (j + 1)) with (S (Z.to_nat j)) by lia.
    + by rewrite (proj2 (Z.ltb_ge _ _)) by lia.
Qed.

End MoreRegistry.

(** ** More about the life cycle *)

Section MoreLifecycle.
Context {X : Externals} {S : OscServer X}.
Import RingBuffer.
Implicit Types (e : Engine).

(** X17: [initialize] succeeds exactly when the driver connects and the
    control front end is ok.  If the driver does not connect, only
    [_driver] is set.  If the front end is not ok, the queues, the
    generator and the front end exist but [_ok] is not set.  On success
    the engine is ok, both queues are empty with [MAX_EVENTS] free slots,
    and the registry is as before. *)
Theorem initialize_outcome driver port pingurl e :
  let d := driver_initialize (driver_set_engine driver) in
  let osc := new_ControlOSC port in
  (initialize driver port pingurl e).1 = d.1 && osc_is_ok osc /\
  (d.1 = false ->
   initialize driver port pingurl e = (false, set_driver (live d.2) e)) /\
  (d.1 = true ->
   exists e' q nq,
     (initialize driver port pingurl e).2 = e' /\
     _ok e' = (if osc_is_ok osc then true else _ok e) /\
     _osc e' = live osc /\
     _event_generator e'
     = live (new_EventGenerator (driver_get_samplerate d.2)) /\
     _event_queue e' = live q /\ wf q /\ pending q = [] /\
     write_space q = MAX_EVENTS /\
     _nonrt_event_queue e' = live nq /\ wf nq /\ pending nq = [] /\
     write_space nq = MAX_EVENTS /\
     _instances e' = _instances e).
Proof.
  intros d osc. unfold initialize. fold d.
  destruct d as [[] drv] eqn:Hd; cbn [fst snd negb andb].
  - fold osc.
    assert (Hnew : forall T (x : T),
              wf (new x MAX_EVENTS) /\ pending (new x MAX_EVENTS) = [] /\
              write_space (new x MAX_EVENTS) = MAX_EVENTS).
    { intros T x.
      assert (Hwf : wf (new x MAX_EVENTS))
        by (apply RingBufferFacts.wf_new; unfold MAX_EVENTS; lia).
      split; [done |]. split.
      - apply nil_length_inv. by rewrite RingBufferFacts.pending_length.
      - unfold write_space, read_space, size, new.
        cbn [slots write_ptr read_ptr].
        rewrite length_replicate. lia. }
    split; [by destruct (osc_is_ok osc) |].
    split; [done |]. intros _.
    destruct (Hnew _ Event_default) as (Hq1 & Hq2 & Hq3).
    destruct (Hnew _ (PingEvent "" "")) as (Hn1 & Hn2 & Hn3).
    destruct (osc_is_ok osc); cbn [negb snd];
      (eexists _, (new Event_default MAX_EVENTS),
         (new (PingEvent "" "") MAX_EVENTS);
       do 5 (split; [reflexivity |]);
       split; [exact Hq1 |]; split; [exact Hq2 |]; split; [exact Hq3 |];
       split; [reflexivity |];
       split; [exact Hn1 |]; split; [exact Hn2 |]; split; [exact Hn3 |];
       reflexivity).
  - split; [done |]. split; [done |]. done.
Qed.

(** The engine after a [cleanup] that went well. *)
Lemma cleanup_result e e1 :
  cleanup e = Some e1 ->
  _ok e1 = false /\ _event_queue e1 = null /\ _event_generator e1 = null /\
  _instances e1 = _instances e /\
  _nonrt_event_queue e1 = _nonrt_event_queue e /\
  _osc e1 = (if is_set (_osc e) then dangling else null).
Proof.
  unfold cleanup.
  destruct e as [ok drv o g q nq insts ch secs lock cond sigs]. simpl.
  destruct o as [|o|], q as [|q|], g as [|g|]; simpl; try done;
    by intros [= <-].
Qed.

(** X18: after [cleanup] the engine is not ok and has neither queue nor
    generator, but still has its registry and its administrative queue.
    The real-time callback and the push operations use the queue without
    a check, so after [cleanup] they have no defined result. *)
Theorem after_cleanup e e1 :
  cleanup e = Some e1 ->
  _ok e1 = false /\
  _instances e1 = _instances e /\
  _nonrt_event_queue e1 = _nonrt_event_queue e /\
  (forall nframes, process nframes e1 = None) /\
  (forall type cmd instance, push_command_event type cmd instance e1 = None) /\
  (forall type ctrl val instance,
     push_control_event type ctrl val instance e1 = None).
Proof.
  intros Hc.
  apply cleanup_result in Hc as (Hok & Hq & Hg & Hi & Hnq & _).
  split; [done |]. split; [done |]. split; [done |].
  split; [|split]; intros;
    unfold process, push_command_event, push_control_event; by rewrite Hq.
Qed.

(** X19: [get_osc_url] and [get_osc_port] give the empty string and 0
    when there is no front end or it is not ok, and the front end's own
    answers when it is ok.  After [cleanup] of an engine that had a front
    end they call through the deleted object and have no defined
    result. *)
Theorem get_osc_lifecycle e :
  (_osc e = null ->
   get_osc_url e = Some ""%string /\ get_osc_port e = Some 0%Z) /\
  (forall osc, _osc e = live osc ->
     get_osc_url e
     = Some (if osc_is_ok osc then get_server_url osc else ""%string) /\
     get_osc_port e
     = Some (if osc_is_ok osc then get_server_port osc else 0%Z)) /\
  (forall osc e1, _osc e = live osc -> cleanup e = Some e1 ->
     get_osc_url e1 = None /\ get_osc_port e1 = None).
Proof.
  unfold get_osc_url, get_osc_port.
  split; [|split].
  - by intros ->.
  - intros osc ->. simpl. by destruct (osc_is_ok osc).
  - intros osc e1 Hosc Hc.
    apply cleanup_result in Hc as (_ & _ & _ & _ & _ & Ho).
    rewrite Hosc in Ho. simpl in Ho. by rewrite Ho.
Qed.

End MoreLifecycle.

(** ** More about the calls the instances receive *)

Module RecordingMoreFacts.
Import RingBuffer Recording RecordingFacts RecordingMore.

Local Existing Instance externals.

Lemma fragpos_range evt : (0 <= fragpos evt < 2 ^ 32)%Z.
Proof. apply IntFacts.to_uint32_range. Qed.

(** Whatever the unread events, each instance receives the dispatched
    calls. *)
Lemma rendered_dispatched nframes evs :
  forall used (insts : list looper),
    (0 <= used <= nframes)%Z -> (nframes < 2 ^ 32)%Z ->
    forall m x,
      insts !! m = Some x ->
      (let '(u, l) := dispatch_all nframes evs (used, insts) in
       looper_run u (nframes_sub nframes u) <$> l) !! m
      = Some (mk_looper (index x) (chans x)
                (log x ++ dispatched_calls nframes m used evs)).
Proof.
  induction evs as [|evt rest IH]; intros used insts Hu Hn m x Hm.
  - simpl. rewrite list_lookup_fmap, Hm. simpl.
    unfold record_call, nframes_sub, to_nframes. simpl.
    by rewrite IntFacts.to_uint32_small by lia.
  - rewrite dispatch_all_cons. cbn [dispatched_calls].
    fold (fragpos evt).
    pose proof (fragpos_range evt) as Hr.
    destruct ((fragpos evt <? used)%Z || (nframes <=? fragpos evt)%Z)
      eqn:Hbad.
    + rewrite (dispatch_event_bad (X:=externals)).
      * by apply IH.
      * apply orb_true_iff in Hbad. simpl.
        by rewrite Z.ltb_lt, Z.leb_le in Hbad.
    + apply orb_false_iff in Hbad as [H1 H2].
      apply Z.ltb_ge in H1. apply Z.leb_gt in H2.
      rewrite (dispatch_event_valid (X:=externals)) by lia.
      erewrite IH; [| lia | done | by apply dispatch_instances_log].
      simpl. by rewrite <- app_assoc.
Qed.

Lemma dispatched_runs nframes m evs :
  forall used,
    runs (dispatched_calls nframes m used evs)
    = cuts used (fragpos <$> accepted nframes used evs) nframes.
Proof.
  induction evs as [|evt rest IH]; intros used; [done |].
  cbn [dispatched_calls accepted]. fold (fragpos evt).
  destruct (_ || _); [apply IH |].
  change (runs (?c :: ?l)) with (runs ([c] ++ l)).
  rewrite !runs_app, IH.
  by destruct (addressed m evt).
Qed.

Lemma dispatched_events nframes m evs :
  forall used,
    events (dispatched_calls nframes m used evs)
    = filter (fun evt => addressed m evt = true) (accepted nframes used evs).
Proof.
  induction evs as [|evt rest IH]; intros used; [done |].
  cbn [dispatched_calls accepted]. fold (fragpos evt).
  destruct (_ || _); [apply IH |].
  change (events (?c :: ?l)) with (events ([c] ++ l)).
  rewrite !events_app, IH, filter_cons.
  by destruct (addressed m evt).
Qed.

Lemma accepted_sublist nframes evs :
  forall used, accepted nframes used evs `sublist_of` evs.
Proof.
  induction evs as [|evt rest IH]; intros used; [done |].
  cbn [accepted]. destruct (_ || _).
  - apply sublist_cons, IH.
  - apply sublist_skip, IH.
Qed.

Lemma accepted_cuts_tile nframes evs :
  forall used,
    (0 <= used <= nframes)%Z ->
    let rs := cuts used (fragpos <$> accepted nframes used evs) nframes in
    tiles used nframes rs /\ frames rs = (nframes - used)%Z.
Proof.
  induction evs as [|evt rest IH]; intros used Hu.
  - simpl. repeat split; lia.
  - cbn [accepted]. fold (fragpos evt).
    destruct ((fragpos evt <? used)%Z || (nframes <=? fragpos evt)%Z)
      eqn:Hbad; [by apply IH |].
    apply orb_false_iff in Hbad as [H1 H2].
    apply Z.ltb_ge in H1. apply Z.leb_gt in H2.
    pose proof (fragpos_range evt) as Hr.
    destruct (IH (fragpos evt) ltac:(lia)) as [Ht Hf].
    rewrite fmap_cons. cbn [cuts tiles frames foldr snd]. cbv zeta.
    fold (frames (cuts (fragpos evt)
                    (fragpos <$> accepted nframes (fragpos evt) rest) nframes)).
    rewrite Hf.
    replace (used + (fragpos evt - used))%Z with (fragpos evt) by lia.
    repeat split; [lia | done | lia].
Qed.

(** With fragment positions that never decrease, no event is skipped. *)
Lemma dispatched_partitioned nframes m evs :
  forall used,
    (0 <= used)%Z -> (nframes < 2 ^ 32)%Z ->
    offsets_nondecreasing nframes used evs ->
    dispatched_calls nframes m used evs = partitioned_calls nframes m used evs.
Proof.
  induction evs as [|evt rest IH]; intros used Hu Hn Hnd; [done |].
  destruct Hnd as [Hevt Hrest].
  cbn [dispatched_calls partitioned_calls].
  assert (Hfp : fragpos evt = FragmentPos evt)
    by (apply IntFacts.to_uint32_small; lia).
  rewrite Hfp.
  assert ((FragmentPos evt <? used)%Z || (nframes <=? FragmentPos evt)%Z
          = false) as ->.
  { apply orb_false_iff. rewrite Z.ltb_ge, Z.leb_gt. lia. }
  by rewrite IH by (done || lia).
Qed.

Lemma cuts_tiles_nondecreasing nframes evs :
  forall used,
    (used <= nframes)%Z ->
    offsets_nondecreasing nframes used evs ->
    let rs := cuts used (FragmentPos <$> evs) nframes in
    tiles used nframes rs /\ frames rs = (nframes - used)%Z.
Proof.
  induction evs as [|evt rest IH]; intros used Hu Hnd.
  - simpl. repeat split; lia.
  - destruct Hnd as [Hevt Hrest].
    destruct (IH (FragmentPos evt) ltac:(lia) Hrest) as [Ht Hf].
    rewrite fmap_cons. cbn [cuts tiles frames foldr snd]. cbv zeta.
    fold (frames (cuts (FragmentPos evt) (FragmentPos <$> rest) nframes)).
    rewrite Hf.
    replace (used + (FragmentPos evt - used))%Z with (FragmentPos evt) by lia.
    repeat split; [lia | done | lia].
Qed.

(** X2: when the callback gets the lock, every instance renders the
    whole buffer exactly once, whatever the unread events are: its runs
    tile the buffer and add up to the frame count, and they are the same
    for all instances, namely the cuts at the fragment positions of the
    events that pass the check.  The events an instance takes are those
    of the passing events that are addressed to it, in queue order. *)
Theorem process_renders_whole_buffer nframes (e : Engine) q g :
  _instance_lock e = false ->
  _event_queue e = live q ->
  _event_generator e = live g ->
  wf q ->
  (0 <= nframes < 2 ^ 32)%Z ->
  exists e' rs,
    process nframes e = Some e' /\
    rs = cuts 0 (fragpos <$> accepted nframes 0 (pending q)) nframes /\
    tiles 0 nframes rs /\ frames rs = nframes /\
    forall m x,
      _instances e !! m = Some x ->
      exists x' cs,
        _instances e' !! m = Some x' /\
        log x' = log x ++ cs /\
        runs cs = rs /\
        events cs
        = filter (fun evt => addressed m evt = true)
            (accepted nframes 0 (pending q)) /\
        events cs `sublist_of` pending q.
Proof.
  intros Hlock Hq Hg Hwf Hn.
  destruct (process_unlocked nframes e q g) as (e' & q' & Hp & Hi & _);
    try done.
  destruct (accepted_cuts_tile nframes (pending q) 0%Z ltac:(lia)) as [Ht Hf].
  eexists e', _. split; [done |]. split; [reflexivity |].
  split; [done |]. split; [rewrite Hf; lia |].
  intros m x Hm.
  pose proof (rendered_dispatched nframes (pending q) 0%Z (_instances e)
                ltac:(lia) ltac:(lia) m x Hm) as Hlog.
  eexists _, (dispatched_calls nframes m 0 (pending q)).
  split; [rewrite Hi; exact Hlog |].
  split; [done |].
  split; [apply dispatched_runs |].
  split; [apply dispatched_events |].
  rewrite dispatched_events.
  etrans; [apply sublist_filter | apply accepted_sublist].
Qed.

(** X3: fragment positions need not increase strictly: when the unread
    events have positions within the buffer that never decrease, so that
    several events may share a frame, the callback still partitions the
    buffer at their positions and gives every event to the instances it
    addresses, in queue order. *)
Theorem process_partitions_nondecreasing nframes (e : Engine) q g :
  _instance_lock e = false ->
  _event_queue e = live q ->
  _event_generator e = live g ->
  wf q ->
  (0 <= nframes < 2 ^ 32)%Z ->
  offsets_nondecreasing nframes 0 (pending q) ->
  partitions_buffer nframes e q.
Proof.
  intros Hlock Hq Hg Hwf Hn Hnd.
  destruct (process_unlocked nframes e q g) as (e' & q' & Hp & Hi & _);
    try done.
  exists e'. split; [done |]. split.
  { rewrite Hi. apply rendered_length. }
  intros m x Hm.
  pose proof (rendered_dispatched nframes (pending q) 0%Z (_instances e)
                ltac:(lia) ltac:(lia) m x Hm) as Hlog.
  rewrite dispatched_partitioned in Hlog by (done || lia).
  eexists _, (partitioned_calls nframes m 0 (pending q)).
  split; [rewrite Hi; exact Hlog |].
  split; [done |]. split; [done |].
  split; [apply partitioned_events |].
  rewrite partitioned_runs.
  split; [done |].
  destruct (cuts_tiles_nondecreasing nframes (pending q) 0%Z ltac:(lia) Hnd)
    as [Ht Hf].
  split; [done |]. rewrite Hf. lia.
Qed.

End RecordingMoreFacts.

(** ** More operations on sample states *)

Module MoreExamples.
Import RingBuffer Recording RecordingMore Demo Demo2.

Local Existing Instance externals.
Local Existing Instance osc_server.

Lemma wf_q_mixed : wf q_mixed.
Proof. split; vm_compute; lia. Qed.

Lemma wf_q_equal : wf q_equal.
Proof. split; vm_compute; lia. Qed.

(** Of the positions 128, 300, 64, 128 only the first and the last pass:
    the second is past the buffer, the third is stale. *)
Example process_q_mixed :
  (fun e' => log <$> _instances e') <$> process 256 (engine_with q_mixed false)
  = Some
      [ [Run 0 128; Run 128 0; Run 128 128];
        [Run 0 128; DoEvent (ev 128 1); Run 128 0; Run 128 128];
        [Run 0 128; Run 128 0; DoEvent (ev 128 2); Run 128 128] ].
Proof. vm_compute. reflexivity. Qed.

(** Two events in the same frame are both dispatched, with an empty run
    between them. *)
Example process_q_equal :
  (fun e' => log <$> _instances e') <$> process 256 (engine_with q_equal false)
  = Some
      [ [Run 0 64; DoEvent (ev 64 0); Run 64 0; Run 64 64;
         DoEvent (ev 128 (-1)); Run 128 128];
        [Run 0 64; Run 64 0; DoEvent (ev 64 1); Run 64 64;
         DoEvent (ev 128 (-1)); Run 128 128];
        [Run 0 64; Run 64 0; Run 64 64; DoEvent (ev 128 (-1)); Run 128 128] ].
Proof. vm_compute. reflexivity. Qed.


Lemma process_consumes_queue_witness :
  exists e1 e2,
    process 256 (engine_with q_mixed false) = Some e1 /\
    process 128 e1 = Some e2 /\
    _instances e2 = looper_run 0%Z 128%Z <$> _instances e1.
Proof.
  destruct (process_consumes_queue 256 128 (engine_with q_mixed false) q_mixed
              (mk_generator 44100 0 []))
    as (e1 & e2 & q' & Hp1 & _ & _ & _ & Hp2 & Hi & _).
  - reflexivity.
  - reflexivity.
  - reflexivity.
  - split; vm_compute; lia.
  - exists e1, e2. auto.
Defined.

Lemma process_after_contention_witness :
  exists e1 e2,
    process 256 (engine_with q_wrapped true) = Some e1 /\
    process 256 (set_instance_lock false e1) = Some e2 /\
    _instances e2 = rendered 256 (pending q_wrapped) loopers.
Proof.
  apply (process_after_contention 256 256 (engine_with q_wrapped true)
           q_wrapped (mk_generator 44100 0 [])).
  - reflexivity.
  - reflexivity.
  - reflexivity.
  - split; vm_compute; lia.
  - lia.
Defined.


Lemma push_until_full_witness :
  exists e',
    push_command_events [(0, 1, 0); (0, 2, 1); (0, 3, 2)]%Z
      (engine_with q_fresh false)
    = Some ([true; true; false], e').
Proof.
  destruct (push_until_full [(0, 1, 0); (0, 2, 1); (0, 3, 2)]%Z
              (engine_with q_fresh false) q_fresh (mk_generator 44100 0 []))
    as (e' & q' & new & Hp & _).
  - reflexivity.
  - reflexivity.
  - split; vm_compute; lia.
  - exists e'. exact Hp.
Defined.

Lemma drain_handles_in_order_witness :
  drain_nonrt_events 4 (engine_nonrt nq_three)
  = handle_nonrt_events
      [ConfigLoopEvent Add 0 0; GetParamEvent 7 3 (S754_zero false);
       ConfigLoopEvent Remove 0 (-1)]
      (set_nonrt_event_queue (live (increment_read_ptr 3 nq_three))
         (engine_nonrt nq_three)).
Proof.
  apply (drain_handles_in_order 4 (engine_nonrt nq_three) nq_three).
  - reflexivity.
  - reflexivity.
  - split; vm_compute; lia.
  - vm_compute. lia.
Defined.

(** The three requests in turn: a loop with the default two channels is
    added at position 3, its control value is read, and it is removed
    again. *)
Example drain_nq_three :
  (fun e' => (_instances e', emitted e', calls <$> deref (_osc e')))
    <$> drain_nonrt_events 4 (engine_nonrt nq_three)
  = Some (loopers, [LoopAdded 3; LoopRemoved],
          Some [finish_get_event 7 3 (S754_finite false 1 0)]).
Proof. vm_compute. reflexivity. Qed.

Lemma quit_stops_worker_witness :
  drain_nonrt_events 4 (quit (engine_nonrt nq_three))
  = Some (quit (engine_nonrt nq_three)).
Proof.
  apply (quit_stops_worker 4 (engine_nonrt nq_three)). lia.
Defined.

Lemma push_nonrt_event_queued_witness :
  exists e' q',
    push_nonrt_event (PingEvent "u" "p") (engine_nonrt nq_three)
    = Some (true, e') /\
    _nonrt_event_queue e' = live q' /\
    pending q' = pending nq_three ++ [PingEvent "u" "p"].
Proof.
  destruct (push_nonrt_event_queued (PingEvent "u" "p") (engine_nonrt nq_three)
              nq_three)
    as (e' & q' & Hp & Hq & _ & Hpend & _).
  - reflexivity.
  - split; vm_compute; lia.
  - vm_compute. lia.
  - exists e', q'. auto.
Defined.

Lemma remove_request_out_of_range_witness :
  handle_nonrt_event (ConfigLoopEvent Remove 0 7) (engine_nonrt nq_three)
  = Some (engine_nonrt nq_three) /\
  handle_nonrt_event (ConfigLoopEvent Remove 0 (-5)) (engine_nonrt nq_three)
  = Some (engine_nonrt nq_three).
Proof.
  split.
  - apply (remove_request_out_of_range 0 7 (engine_nonrt nq_three)).
    + vm_compute. discriminate.
    + lia.
    + right. left. vm_compute. discriminate.
  - apply (remove_request_out_of_range 0 (-5) (engine_nonrt nq_three)).
    + vm_compute. discriminate.
    + lia.
    + left. lia.
Defined.

Lemma front_end_events_witness :
  (exists call,
     handle_nonrt_event (GetParamEvent 7 9 (S754_zero false))
       (engine_nonrt nq_three)
     = Some (set_osc (live (osc_call call (mk_osc 9951 [])))
               (engine_nonrt nq_three)) /\
     call = finish_get_event 7 9 (S754_zero false)) /\
  handle_nonrt_event (PingEvent "u" "p") Engine_new = None.
Proof.
  split.
  - destruct (front_end_events (GetParamEvent 7 9 (S754_zero false))
                (engine_nonrt nq_three)) as [Hcall _].
    destruct (Hcall eq_refl (mk_osc 9951 []) eq_refl) as (call & Hh & Hzero).
    exists call. split; [exact Hh |].
    apply (Hzero 7%Z 9%Z (S754_zero false) eq_refl).
    right. vm_compute. discriminate.
  - apply (front_end_events (PingEvent "u" "p") Engine_new); reflexivity.
Defined.

Lemma add_then_remove_last_witness :
  exists e1 e2,
    add_loop 2 (engine_nonrt nq_three) = (true, e1) /\
    handle_nonrt_event (ConfigLoopEvent Remove 0 (-1)) e1 = Some e2 /\
    _instances e2 = loopers /\
    emitted e2 = [LoopAdded 3; LoopRemoved].
Proof.
  destruct (add_then_remove_last 2 (engine_nonrt nq_three) (mk_looper 3 2 []))
    as (e1 & e2 & Ha & _ & _ & Hh & Hi & He).
  - vm_compute. discriminate.
  - reflexivity.
  - exists e1, e2. auto.
Defined.

Lemma remove_loop_shifts_witness :
  exists e',
    remove_loop 0 (engine_nonrt nq_three) = (true, e') /\
    get_control_value 7 1 e' = get_control_value 7 2 (engine_nonrt nq_three) /\
    get_control_value 7 2 e' = Some (S754_zero false).
Proof.
  destruct (remove_loop_shifts 7 0 (engine_nonrt nq_three))
    as (e' & Hr & _ & _ & Hshift).
  - vm_compute. discriminate.
  - vm_compute. split; [discriminate | reflexivity].
  - exists e'. split; [exact Hr |]. split.
    + apply (Hshift 1%Z). lia.
    + rewrite (Hshift 2%Z) by lia. reflexivity.
Defined.

Lemma initialize_outcome_witness :
  initialize (false, 44100%Z) 9951 "" Engine_new
  = (false, set_driver (live (false, 44100%Z)) Engine_new) /\
  exists e' q,
    (initialize (true, 44100%Z) 9951 "" Engine_new).2 = e' /\
    _ok e' = true /\ _event_queue e' = live q /\ write_space q = MAX_EVENTS.
Proof.
  pose proof (initialize_outcome (false, 44100%Z) 9951 "" Engine_new)
    as (_ & Hfail & _).
  pose proof (initialize_outcome (true, 44100%Z) 9951 "" Engine_new)
    as (_ & _ & Hgo).
  split; [apply Hfail; reflexivity |].
  destruct (Hgo eq_refl)
    as (e' & q & nq & He & Hok & _ & _ & Hq & _ & _ & Hs & _).
  exists e', q. auto.
Defined.

Lemma after_cleanup_witness :
  exists e1,
    cleanup (engine_with q_fresh false) = Some e1 /\
    process 256 e1 = None /\
    push_command_event 0 1 2 e1 = None /\
    _instances e1 = loopers.
Proof.
  eexists. split; [reflexivity |].
  destruct (after_cleanup (engine_with q_fresh false) _ eq_refl)
    as (_ & Hi & _ & Hp & Hc & _).
  split; [apply Hp |]. split; [apply Hc | exact Hi].
Defined.

Lemma get_osc_lifecycle_witness :
  get_osc_port Engine_new = Some 0%Z /\
  get_osc_port (engine_with q_fresh false) = Some 9951%Z /\
  get_osc_url (engine_with q_fresh false) = Some "osc.udp://localhost/"%string /\
  (forall e1, cleanup (engine_with q_fresh false) = Some e1 ->
     get_osc_url e1 = None /\ get_osc_port e1 = None).
Proof.
  pose proof (get_osc_lifecycle Engine_new) as (Hnull & _ & _).
  pose proof (get_osc_lifecycle (engine_with q_fresh false)) as (_ & Hlive & Hc).
  split; [apply Hnull; reflexivity |].
  destruct (Hlive (mk_osc 9951 []) eq_refl) as [Hurl Hport].
  split; [exact Hport |]. split; [exact Hurl |].
  intros e1. apply (Hc (mk_osc 9951 [])). reflexivity.
Defined.


Lemma process_renders_whole_buffer_witness :
  exists e' rs,
    process 256 (engine_with q_mixed false) = Some e' /\
    rs = [(0, 128); (128, 0); (128, 128)]%Z /\
    frames rs = 256%Z.
Proof.
  destruct (RecordingMoreFacts.process_renders_whole_buffer 256
              (engine_with q_mixed false) q_mixed (mk_generator 44100 0 []))
    as (e' & rs & Hp & Hrs & _ & Hf & _).
  - reflexivity.
  - reflexivity.
  - reflexivity.
  - split; vm_compute; lia.
  - lia.
  - exists e', rs. auto.
Defined.

Lemma process_partitions_nondecreasing_witness :
  partitions_buffer 256 (engine_with q_equal false) q_equal.
Proof.
  apply (RecordingMoreFacts.process_partitions_nondecreasing 256
           (engine_with q_equal false) q_equal (mk_generator 44100 0 [])).
  - reflexivity.
  - reflexivity.
  - reflexivity.
  - split; vm_compute; lia.
  - lia.
  - vm_compute. repeat split; discriminate.
Defined.

End MoreExamples.

(** ** More compositions *)

Section Compositions.
Context {X : Externals}.
Import RingBuffer.
Implicit Types (e : Engine).

(** X20: on an engine without a control front end, whose queue and
    generator are live or absent, [cleanup] may be repeated any number of
    times: after the first call every further call changes nothing. *)
Theorem cleanup_repeatable_without_osc e :
  _osc e = null ->
  _event_queue e <> dangling ->
  _event_generator e <> dangling ->
  exists e1,
    cleanup e = Some e1 /\
    forall n, Nat.iter n (fun o => o ≫= cleanup) (Some e1) = Some e1.
Proof.
  intros Hosc Hq Hg.
  destruct (cleanup_idempotent_without_osc e Hosc Hq Hg) as (e1 & Hc & Hc1).
  exists e1. split; [done |].
  induction n as [|n IH]; [done |].
  simpl. rewrite IH. exact Hc1.
Qed.

(** X21: an add request with channel count 0 is the same request as one
    with the default channel count of the engine, and the index of an add
    request is not looked at. *)
Theorem add_request_default_channels index index' e :
  handle_nonrt_event (ConfigLoopEvent Add 0 index) e
  = handle_nonrt_event (ConfigLoopEvent Add (_def_channel_cnt e) index') e.
Proof.
  cbn [handle_nonrt_event]. change (0 =? 0)%Z with true. cbn match.
  by destruct (Z.eqb_spec (_def_channel_cnt e) 0) as [->|].
Qed.

(** X22: an administrative event pushed while the queue has room is
    handled by the next run of the worker's inner loop, after the events
    that were unread before it. *)
Theorem push_then_drain event fuel e q :
  _ok e = true ->
  _nonrt_event_queue e = live q ->
  wf q ->
  0 < write_space q ->
  S (length (pending q)) < fuel ->
  exists e1 q1,
    push_nonrt_event event e = Some (true, e1) /\
    pending q1 = [] /\
    drain_nonrt_events fuel e1
    = handle_nonrt_events (pending q ++ [event])
        (set_nonrt_event_queue (live q1) e1).
Proof.
  intros Hok Hq Hwf Hroom Hfuel.
  set (q' := increment_write_ptr 1
               (store (buf (get_write_vector q) 0) event q)).
  assert (Hwf' : wf q') by (by apply RingBufferFacts.wf_push).
  assert (Hpend : pending q' = pending q ++ [event])
    by (by apply RingBufferFacts.pending_push).
  assert (Hpush : push_nonrt_event event e
                  = Some (true, signal_event_cond
                                  (set_nonrt_event_queue (live q') e))).
  { unfold push_nonrt_event. rewrite Hq. cbn [deref mbind option_bind].
    unfold write1.
    assert ((len (get_write_vector q) 0 =? 0) = false) as ->; [|done].
    apply Nat.eqb_neq. rewrite RingBufferFacts.write_vector_full by done. lia. }
  eexists _, (increment_read_ptr (length (pending q')) q').
  split; [exact Hpush |].
  split; [apply (wf_read_space q' Hwf') |].
  rewrite <- Hpend.
  apply drain_nonrt_events_pending; try done.
  rewrite Hpend, length_app. simpl. lia.
Qed.

(** X23: a loop added after a removal gets the registry size after the
    removal as its index, whatever position was removed: it is built with
    index size - 1 and appended at that position, and [LoopAdded] carries
    that number. *)
Theorem remove_then_add index chans e instance :
  (instances_size e <= Int.INT_MAX)%Z ->
  (0 <= index < instances_size e)%Z ->
  looper_ok (new_Looper (_driver e) (instances_size e - 1) chans)
  = (true, instance) ->
  exists e1 e2,
    remove_loop index e = (true, e1) /\
    add_loop chans e1 = (true, e2) /\
    _instances e2 = delete (Z.to_nat index) (_instances e) ++ [instance] /\
    _instances e2 !! (length (_instances e) - 1) = Some instance /\
    emitted e2
    = emitted e ++ [LoopRemoved; LoopAdded (instances_size e - 1)].
Proof.
  intros Hsize Hi Hok.
  pose (e1 := emit LoopRemoved
                (set_instances (delete (Z.to_nat index) (_instances e)) e)).
  assert (Hlen : length (_instances e1) = length (_instances e) - 1).
  { unfold e1, instances_size in *. simpl.
    apply length_delete, lookup_lt_is_Some_2. lia. }
  assert (Hsize1 : instances_size e1 = (instances_size e - 1)%Z).
  { unfold instances_size in *. rewrite Hlen. lia. }
  exists e1, (emit (LoopAdded (instances_size e - 1))
                (set_instances (_instances e1 ++ [instance]) e1)).
  split; [by apply remove_loop_in |].
  split.
  { rewrite <- Hsize1. apply add_loop_ok; rewrite Hsize1; [lia | exact Hok]. }
  split; [done |]. split.
  - change (_instances (emit _ (set_instances ?l _))) with l.
    rewrite lookup_app_r by lia. by rewrite Hlen, Nat.sub_diag.
  - simpl. by rewrite <- app_assoc.
Qed.

End Compositions.

Module CompositionExamples.
Import RingBuffer Recording Demo Demo2.

Local Existing Instance externals.

Lemma cleanup_repeatable_without_osc_witness :
  exists e1,
    cleanup Engine_new = Some e1 /\
    Nat.iter 3 (fun o => o ≫= cleanup) (Some e1) = Some e1.
Proof.
  destruct (cleanup_repeatable_without_osc Engine_new) as (e1 & Hc & Hn).
  - reflexivity.
  - discriminate.
  - discriminate.
  - exists e1. split; [exact Hc | apply (Hn 3)].
Defined.

Lemma push_then_drain_witness :
  exists e1 q1,
    push_nonrt_event (PingEvent "u" "p") (engine_nonrt nq_three)
    = Some (true, e1) /\
    pending q1 = [] /\
    drain_nonrt_events 5 e1
    = handle_nonrt_events (pending nq_three ++ [PingEvent "u" "p"])
        (set_nonrt_event_queue (live q1) e1).
Proof.
  apply (push_then_drain (PingEvent "u" "p") 5 (engine_nonrt nq_three) nq_three).
  - reflexivity.
  - reflexivity.
  - split; vm_compute; lia.
  - vm_compute. lia.
  - vm_compute. lia.
Defined.

Lemma remove_then_add_witness :
  exists e1 e2,
    remove_loop 0 (engine_nonrt nq_three) = (true, e1) /\
    add_loop 2 e1 = (true, e2) /\
    _instances e2 = [mk_looper 1 2 []; mk_looper 2 1 []; mk_looper 2 2 []].
Proof.
  destruct (remove_then_add 0 2 (engine_nonrt nq_three) (mk_looper 2 2 []))
    as (e1 & e2 & Hr & Ha & Hi & _).
  - vm_compute. discriminate.
  - vm_compute. split; [discriminate | reflexivity].
  - reflexivity.
  - exists e1, e2. auto.
Defined.

End CompositionExamples.
